(** * Statistics Helper: the statistics engine and the entry form's checks

    A shallow embedding of the two pieces of the application that carry
    semantics:

    - [calculateStatistics] and [getMedian] of the Express backend, which
      summarise the numeric fields of a schema over its entries;
    - [handleSubmit] (with [handleInputChange] and the [onChange] handlers of
      [renderField]) of the [DataEntry] component, the only place where a
      candidate entry is checked before it is posted, and the
      [POST /api/entries] route that stores it.

    JavaScript numbers are IEEE 754 binary64 values; they are modelled by
    Rocq's primitive [float], whose operations are the same binary64
    operations, specified by [SpecFloat] through the axioms of
    [FloatAxioms].  So a statement proved here holds of the doubles the
    program computes with, rounding, overflow, infinities and signed zeros
    included.

    What the model leaves out: a record is an object whose values are JSON
    primitives (arrays and nested objects are not modelled); field names are
    ordinary keys (not [__proto__]); strings are ASCII; [Math.pow], which
    ECMAScript does not pin down, is a parameter of the engine. *)

From Stdlib Require Import ZArith NArith Floats List String Ascii Lia.
From Stdlib Require Import Permutation Sorted.
From stdpp Require Import gmap strings list sorting.

(* ===================================================================== *)
(** * Part I: the code                                                    *)
(* ===================================================================== *)

(** ** JavaScript values and the built-ins the code calls *)

Module JS.

(** The values a parsed JSON object or the form state holds under a key,
    and [undefined], the result of reading a key that is not there. *)
Inductive value : Type :=
| Undefined
| Null
| Bool (b : bool)
| Num (x : float)
| Str (s : string).

(** An object used as a record: [JSON.parse(entry.data)], [formData]. *)
Abbreviation object := (gmap string value).

(** [obj[key]]. *)
Definition get (obj : object) (key : string) : value :=
  match obj !! key with
  | Some v => v
  | None => Undefined
  end.

(** [isNaN] on a number. *)
Definition isNaN (x : float) : bool := PrimFloat.is_nan x.

(** ToBoolean: [undefined], [null], [false], [0], [-0], [NaN] and the empty
    string are falsy. *)
Definition ToBoolean (v : value) : bool :=
  match v with
  | Undefined => false
  | Null => false
  | Bool b => b
  | Num x => negb (PrimFloat.is_zero x || PrimFloat.is_nan x)
  | Str s => negb (String.eqb s "")
  end.

(** [array.length] as a Number. *)
Definition Number_of_nat (n : nat) : float :=
  PrimFloat.of_uint63 (Uint63.of_Z (Z.of_nat n)).

(** *** [parseFloat] on strings

    [parseFloat] trims leading white space and reads the longest prefix that
    is a StrDecimalLiteral: an optional sign, then [Infinity] or decimal
    digits with an optional fraction and an optional exponent.  The result is
    the binary64 value nearest to the literal (ties to even), [NaN] when no
    prefix is a literal.  White space is the ASCII part of what ECMAScript
    trims: tab, line feed, vertical tab, form feed, carriage return and
    space. *)

Definition is_white_space (c : ascii) : bool :=
  let n := N_of_ascii c in
  ((9 <=? n) && (n <=? 13) || (n =? 32))%N.

Fixpoint TrimStart (s : string) : string :=
  match s with
  | String c rest => if is_white_space c then TrimStart rest else s
  | EmptyString => s
  end.

Definition digit_value (c : ascii) : option N :=
  let n := N_of_ascii c in
  if ((48 <=? n) && (n <=? 57))%N then Some (n - 48)%N else None.

(** Reads the longest run of decimal digits: the number read so far
    (continuing [acc]), how many digits were read, and what follows. *)
Fixpoint read_digits (s : string) (acc : N) (count : nat) : N * nat * string :=
  match s with
  | String c rest =>
      match digit_value c with
      | Some d => read_digits rest (10 * acc + d)%N (S count)
      | None => (acc, count, s)
      end
  | EmptyString => (acc, count, s)
  end.

Definition read_sign (s : string) : bool * string :=
  match s with
  | String "-"%char rest => (true, rest)
  | String "+"%char rest => (false, rest)
  | _ => (false, s)
  end.

(** ExponentPart: [e] or [E], an optional sign, at least one digit.  When
    what follows is not an exponent part the literal ends before it.  The
    result is the exponent read and what follows the literal. *)
Definition read_exponent (s : string) : Z * string :=
  match s with
  | String c rest =>
      if (Ascii.eqb c "e" || Ascii.eqb c "E")%bool then
        let '(neg, signed) := read_sign rest in
        let '(n, count, after) := read_digits signed 0%N 0 in
        match count with
        | O => (0%Z, s)
        | S _ => (if neg then (- Z.of_N n)%Z else Z.of_N n, after)
        end
      else (0%Z, s)
  | EmptyString => (0%Z, s)
  end.

(** StrUnsignedDecimalLiteral without [Infinity]: the literal's value is
    [digits * 10 ^ exponent]; the third component is what follows it. *)
Definition read_unsigned_decimal (s : string) : option (N * Z * string) :=
  let '(int_part, int_count, rest) := read_digits s 0%N 0 in
  match rest with
  | String "."%char fraction =>
      let '(all, frac_count, rest') := read_digits fraction int_part 0 in
      match int_count, frac_count with
      | O, O => None
      | _, _ =>
          let '(exponent, after) := read_exponent rest' in
          Some (all, (exponent - Z.of_nat frac_count)%Z, after)
      end
  | _ =>
      match int_count with
      | O => None
      | S _ =>
          let '(exponent, after) := read_exponent rest in
          Some (int_part, exponent, after)
      end
  end.

Inductive StrDecimalLiteral : Type :=
| LitInfinity (negative : bool)
| LitDecimal (negative : bool) (digits : N) (exponent : Z).

(** The longest prefix of the trimmed string that is a StrDecimalLiteral,
    and what follows it. *)
Definition read_literal (s : string) : option (StrDecimalLiteral * string) :=
  let '(neg, rest) := read_sign (TrimStart s) in
  if String.prefix "Infinity" rest
  then Some (LitInfinity neg, String.substring 8 (String.length rest - 8) rest)
  else
    match read_unsigned_decimal rest with
    | Some (digits, exponent, after) => Some (LitDecimal neg digits exponent, after)
    | None => None
    end.

(** The binary64 value nearest to [± digits * 10 ^ exponent]. *)
Definition Number_of_decimal (neg : bool) (digits : N) (exponent : Z) : float :=
  match digits with
  | N0 => if neg then PrimFloat.neg_zero else PrimFloat.zero
  | Npos m =>
      SF2Prim
        (if (0 <=? exponent)%Z
         then binary_normalize prec emax
                (cond_Zopp neg (Zpos m * 10 ^ exponent)%Z) 0%Z false
         else SFdiv prec emax (S754_finite neg m 0%Z)
                (S754_finite false (Z.to_pos (10 ^ (- exponent))) 0%Z))
  end.

Definition parseFloat_string (s : string) : float :=
  match read_literal s with
  | Some (LitInfinity neg, _) =>
      if neg then PrimFloat.neg_infinity else PrimFloat.infinity
  | Some (LitDecimal neg digits exponent, _) => Number_of_decimal neg digits exponent
  | None => PrimFloat.nan
  end.

(** [parseFloat(v)] is [parseFloat] of [ToString(v)].  A number prints as a
    decimal that reads back as the same number, except that [-0] prints as
    ["0"]; [undefined], [null] and booleans print as their names. *)
Definition parseFloat (v : value) : float :=
  match v with
  | Undefined => parseFloat_string "undefined"
  | Null => parseFloat_string "null"
  | Bool true => parseFloat_string "true"
  | Bool false => parseFloat_string "false"
  | Num x => if PrimFloat.is_zero x then PrimFloat.zero else x
  | Str s => parseFloat_string s
  end.

(** *** [Math.min] and [Math.max]

    Both scan their arguments from a start value of [+Infinity]
    (resp. [-Infinity]), return [NaN] as soon as an argument is [NaN], and
    order [-0] below [+0]. *)

Definition is_neg_zero (x : float) : bool := PrimFloat.Leibniz.eqb x PrimFloat.neg_zero.
Definition is_pos_zero (x : float) : bool := PrimFloat.Leibniz.eqb x PrimFloat.zero.

Fixpoint Math_min_from (lowest : float) (coerced : list float) : float :=
  match coerced with
  | [] => lowest
  | number :: rest =>
      if isNaN number then PrimFloat.nan
      else
        let lowest := if (is_neg_zero number && is_pos_zero lowest)%bool
                      then PrimFloat.neg_zero else lowest in
        let lowest := if (number <? lowest)%float then number else lowest in
        Math_min_from lowest rest
  end.

Definition Math_min (args : list float) : float :=
  Math_min_from PrimFloat.infinity args.

Fixpoint Math_max_from (highest : float) (coerced : list float) : float :=
  match coerced with
  | [] => highest
  | number :: rest =>
      if isNaN number then PrimFloat.nan
      else
        let highest := if (is_pos_zero number && is_neg_zero highest)%bool
                       then PrimFloat.zero else highest in
        let highest := if (highest <? number)%float then number else highest in
        Math_max_from highest rest
  end.

Definition Math_max (args : list float) : float :=
  Math_max_from PrimFloat.neg_infinity args.

(** *** [Array.prototype.sort] with a comparator

    The sort is stable and puts [a] after [b] only when the comparator is
    positive on [(a, b)]; a [NaN] comparator result counts as [0].  Stable
    insertion gives that order. *)

Section Sort.
Context {A : Type} (comparefn : A -> A -> float).

Fixpoint sort_insert (x : A) (sorted : list A) : list A :=
  match sorted with
  | [] => [x]
  | y :: rest =>
      if (0 <? comparefn x y)%float then y :: sort_insert x rest
      else x :: sorted
  end.

Definition Array_sort (l : list A) : list A :=
  fold_right sort_insert [] l.

End Sort.

End JS.

(** ** The backend: [calculateStatistics] and [getMedian] *)

Module Server.

(** A field of a schema, as [SchemaDesigner] builds it. *)
Inductive FieldType : Type := text | number | date | select.

Record Field : Type := {
  name : string;
  type : FieldType;
  options : option (list string);
  required : bool
}.

(** The statistics reported for one field. *)
Record Summary : Type := {
  count : nat;
  mean : float;
  median : float;
  min : float;
  max : float;
  standardDeviation : float;
  variance : float
}.

#[global] Instance FieldType_eq_dec : EqDecision FieldType.
Proof. solve_decision. Defined.

(** [sortedValues[i]] read as a number: an index past the end reads
    [undefined], which arithmetic turns into [NaN]. *)
Definition at_index (l : list float) (i : nat) : float := nth i l PrimFloat.nan.

(** [getMedian].  [mid - 1] is only read when the length is even; for the
    empty array it is index [-1], which reads [undefined] like index [0]
    does. *)
Definition getMedian (sortedValues : list float) : float :=
  let mid := (length sortedValues / 2)%nat in
  if negb (length sortedValues mod 2 =? 0)%nat
  then at_index sortedValues mid
  else ((at_index sortedValues (mid - 1) + at_index sortedValues mid) / 2)%float.

(** The comparator of the sort, [(a, b) => a - b]. *)
Definition ascending (a b : float) : float := (a - b)%float.

(** [data.map(item => parseFloat(item[field.name])).filter(v => !isNaN(v) && ...)].
    The two further conjuncts of the filter compare a number with [null]
    and [undefined] and are always true. *)
Definition field_values (data : list JS.object) (field_name : string) : list float :=
  List.filter (fun v => negb (JS.isNaN v))
    (List.map (fun item => JS.parseFloat (JS.get item field_name)) data).

Section Engine.

(** [Math.pow] is implementation-approximated in ECMAScript: the engine is
    parameterised by it. *)
Variable Math_pow : float -> float -> float.

(** [values.reduce((a, b) => a + b, 0)]. *)
Definition sum (values : list float) : float :=
  fold_left (fun a b => (a + b)%float) values 0%float.

(** The body of [if (values.length > 0)].  [sort] sorts [values] in place
    and returns it, so every later use of [values] reads the sorted array. *)
Definition summarize (values : list float) : Summary :=
  let sortedValues := JS.Array_sort ascending values in
  let values := sortedValues in
  let mean := (sum values / JS.Number_of_nat (length values))%float in
  let variance :=
    (fold_left (fun a b => (a + Math_pow (b - mean) 2)%float) values 0
     / JS.Number_of_nat (length values))%float in
  {| count := length values;
     mean := mean;
     median := getMedian sortedValues;
     min := JS.Math_min values;
     max := JS.Math_max values;
     standardDeviation := PrimFloat.sqrt variance;
     variance := variance |}.

(** One turn of [fields.forEach]. *)
Definition visit_field (data : list JS.object) (stats : gmap string Summary)
    (field : Field) : gmap string Summary :=
  match type field with
  | number =>
      let values := field_values data (name field) in
      if (0 <? length values)%nat
      then <[name field := summarize values]> stats
      else stats
  | _ => stats
  end.

Definition calculateStatistics (data : list JS.object) (fields : list Field)
    : gmap string Summary :=
  fold_left (visit_field data) fields ∅.

End Engine.

(** An entry row and the [POST /api/entries] route: the data is stored as
    it comes (as its JSON text), nothing in the request is checked. *)
Record Entry : Type := { schemaId : Z; data : JS.object }.

Definition post_entries (entries : list Entry) (schema_id : Z) (d : JS.object)
    : list Entry :=
  entries ++ [{| schemaId := schema_id; data := d |}].

End Server.

(** ** The entry form: [DataEntry] *)

Module DataEntry.

Import Server.

(** [handleInputChange]: [{...formData, [fieldName]: value}]. *)
Definition handleInputChange (formData : JS.object) (fieldName : string)
    (value : JS.value) : JS.object :=
  <[fieldName := value]> formData.

(** What the [onChange] handler of [renderField] stores when the user has
    typed [text] into the input of [field]: number inputs store
    [parseFloat(text) || ''], the others store the text. *)
Definition onChange (field : Field) (formData : JS.object) (text : string)
    : JS.object :=
  match type field with
  | number =>
      let x := JS.Num (JS.parseFloat_string text) in
      handleInputChange formData (name field)
        (if JS.ToBoolean x then x else JS.Str "")
  | _ => handleInputChange formData (name field) (JS.Str text)
  end.

(** What [handleSubmit] does: it either shows an alert and stops, or posts
    the form data. *)
Inductive Outcome : Type :=
| Alerted (message : string)
| Posted (schema_id : Z) (d : JS.object).

(** The test of the loop, [field.required && !formData[field.name]]. *)
Definition fails_required (formData : JS.object) (field : Field) : bool :=
  required field && negb (JS.ToBoolean (JS.get formData (name field))).

Definition required_message (field : Field) : string :=
  (name field ++ " is required")%string.

(** The [for (const field of fields)] loop: [Some] message when it alerts
    and returns, [None] when it runs to its end. *)
Fixpoint validate_required (fields : list Field) (formData : JS.object)
    : option string :=
  match fields with
  | [] => None
  | field :: rest =>
      if fails_required formData field
      then Some (required_message field)
      else validate_required rest formData
  end.

Definition handleSubmit (schema_id : Z) (fields : list Field)
    (formData : JS.object) : Outcome :=
  match validate_required fields formData with
  | Some message => Alerted message
  | None => Posted schema_id formData
  end.

End DataEntry.

(** ** More JavaScript built-ins: [split], [trim], [join] *)

Module JSString.

(** [s.split(sep)] for a separator of one character: the pieces between the
    separators; the empty string splits into one empty piece. *)
Fixpoint split (sep : ascii) (s : string) : list string :=
  match s with
  | EmptyString => [EmptyString]
  | String c rest =>
      if Ascii.eqb c sep then EmptyString :: split sep rest
      else
        match split sep rest with
        | piece :: pieces => String c piece :: pieces
        | [] => [String c EmptyString]
        end
  end.

(** [s.trimEnd()]. *)
Fixpoint TrimEnd (s : string) : string :=
  match s with
  | EmptyString => EmptyString
  | String c rest =>
      match TrimEnd rest with
      | EmptyString => if JS.is_white_space c then EmptyString else String c EmptyString
      | trimmed => String c trimmed
      end
  end.

(** [s.trim()]. *)
Definition trim (s : string) : string := TrimEnd (JS.TrimStart s).

(** [pieces.join(sep)] on an array of strings. *)
Fixpoint join (sep : string) (pieces : list string) : string :=
  match pieces with
  | [] => EmptyString
  | [piece] => piece
  | piece :: rest => (piece ++ sep ++ join sep rest)%string
  end.

End JSString.

(** ** The routes that read the entries *)

Module Routes.

Import Server.

(** A row of the schema table; [fields] is the stored JSON text, parsed. *)
Record SchemaRow : Type := {
  schema_id : Z;
  schema_name : string;
  schema_fields : list Field
}.

(** What a route answers: a JSON body, or status 404 with an error. *)
Inductive Response (A : Type) : Type :=
| Json (body : A)
| NotFound (error : string).

Arguments Json {A} body.
Arguments NotFound {A} error.

(** [prisma.entry.findMany({ where: { schemaId } })]. *)
Definition entries_of (entries : list Entry) (id : Z) : list Entry :=
  List.filter (fun e => (schemaId e =? id)%Z) entries.

(** [GET /api/schemas/:id/statistics]: the entries of the schema are read,
    then the schema; without the schema the answer is 404. *)
Definition get_statistics (Math_pow : float -> float -> float)
    (schemas : list SchemaRow) (entries : list Entry) (id : Z)
    : Response (gmap string Summary) :=
  let entries := entries_of entries id in
  match List.find (fun s => (schema_id s =? id)%Z) schemas with
  | None => NotFound "Schema not found"
  | Some schema =>
      let fields := schema_fields schema in
      let data := List.map data entries in
      Json (calculateStatistics Math_pow data fields)
  end.

End Routes.

(** ** The statistics page: [StatisticalAnalysis] *)

Module StatisticalAnalysis.

Import Server.

(** [Object.keys(statistics).length === 0], the test that replaces the
    cards and the chart by "No numerical data found". *)
Definition no_numerical_data (statistics : gmap string Summary) : bool :=
  (length (map_to_list statistics).*1 =? 0)%nat.

End StatisticalAnalysis.

(** ** The application shell: [App] *)

Module App.

Inductive ActiveTab : Type := schema | entry | viewer | analysis | export.

(** What the main area can show; the panels of a schema carry it. *)
Inductive Panel (S : Type) : Type :=
| SchemaDesigner
| DataEntry (selected : S)
| DataViewer (selected : S)
| StatisticalAnalysis (selected : S)
| ExportImport (selected : S)
| NoSchemaSelected.

Arguments SchemaDesigner {S}.
Arguments DataEntry {S} selected.
Arguments DataViewer {S} selected.
Arguments StatisticalAnalysis {S} selected.
Arguments ExportImport {S} selected.
Arguments NoSchemaSelected {S}.

#[global] Instance ActiveTab_eq_dec : EqDecision ActiveTab.
Proof. solve_decision. Defined.

(** [cond && <Panel />]: the panel when the condition holds, nothing
    otherwise. *)
Definition when {S} (cond : bool) (panel : Panel S) : list (Panel S) :=
  if cond then [panel] else [].

(** [activeTab === tab && selectedSchema && <Panel schema={selectedSchema} />]. *)
Definition when_selected {S} (cond : bool) (selectedSchema : option S)
    (panel : S -> Panel S) : list (Panel S) :=
  match cond, selectedSchema with
  | true, Some s => [panel s]
  | _, _ => []
  end.

(** The children of [<main>], the loading spinner aside, in the order they
    are written. *)
Definition main_panels {S} (activeTab : ActiveTab) (selectedSchema : option S)
    : list (Panel S) :=
  when (bool_decide (activeTab = schema)) SchemaDesigner
  ++ when_selected (bool_decide (activeTab = entry)) selectedSchema DataEntry
  ++ when_selected (bool_decide (activeTab = viewer)) selectedSchema DataViewer
  ++ when_selected (bool_decide (activeTab = analysis)) selectedSchema StatisticalAnalysis
  ++ when_selected (bool_decide (activeTab = export)) selectedSchema ExportImport
  ++ when (negb (bool_decide (activeTab = schema))
           && negb (bool_decide (is_Some selectedSchema))) NoSchemaSelected.

End App.

(** ** The entry form, continued: what the inputs show *)

Module DataEntryView.

Import Server DataEntry.

(** [const value = formData[field.name] || ''] of [renderField]: the value
    the input of a field shows. *)
Definition field_value (formData : JS.object) (field : Field) : JS.value :=
  let v := JS.get formData (name field) in
  if JS.ToBoolean v then v else JS.Str "".


End DataEntryView.

(** ** The schema designer: [SchemaDesigner] *)

Module SchemaDesigner.

Import Server.

(** The state of the component: the four [useState] cells that hold
    data. *)
Record State : Type := {
  schemaName : string;
  fields : list Field;
  newField : Field;
  selectOptions : string
}.

(** [{ name: '', type: 'text', required: false }]. *)
Definition blank_field : Field :=
  {| name := ""; type := text; options := None; required := false |}.

Definition initial : State :=
  {| schemaName := ""; fields := []; newField := blank_field; selectOptions := "" |}.

(** [selectOptions.split(',').map(opt => opt.trim()).filter(opt => opt)]. *)
Definition parse_options (selectOptions : string) : list string :=
  List.filter (fun opt => negb (String.eqb opt ""))
    (List.map JSString.trim (JSString.split "," selectOptions)).

(** [addField]. *)
Definition addField (st : State) : State :=
  if String.eqb (name (newField st)) "" then st
  else
    let field :=
      match type (newField st) with
      | select =>
          {| name := name (newField st); type := type (newField st);
             options := Some (parse_options (selectOptions st));
             required := required (newField st) |}
      | _ => newField st
      end in
    {| schemaName := schemaName st;
       fields := fields st ++ [field];
       newField := blank_field;
       selectOptions := "" |}.

(** [array.filter((_, i) => keep(i))], the indices counted from [i]. *)
Fixpoint filter_index {A} (keep : nat -> bool) (i : nat) (l : list A) : list A :=
  match l with
  | [] => []
  | x :: rest =>
      if keep i then x :: filter_index keep (S i) rest
      else filter_index keep (S i) rest
  end.

(** [removeField]: [fields.filter((_, i) => i !== index)]. *)
Definition removeField (st : State) (index : nat) : State :=
  {| schemaName := schemaName st;
     fields := filter_index (fun i => negb (i =? index)%nat) 0 (fields st);
     newField := newField st;
     selectOptions := selectOptions st |}.

(** The body of [POST /api/schemas]. *)
Record Request : Type := { posted_name : string; posted_fields : list Field }.

(** [createSchema]; [post_ok] tells whether the request succeeds.  The
    result is the next state and the request sent, if any. *)
Definition createSchema (st : State) (post_ok : bool) : State * option Request :=
  if (String.eqb (schemaName st) "" || (length (fields st) =? 0)%nat)%bool
  then (st, None)
  else
    let request := {| posted_name := schemaName st; posted_fields := fields st |} in
    if post_ok
    then ({| schemaName := ""; fields := []; newField := newField st;
             selectOptions := selectOptions st |}, Some request)
    else (st, Some request).

(** What the user can do: type into an input, tick the box, click a
    button. *)
Inductive Action : Type :=
| TypeSchemaName (s : string)
| TypeFieldName (s : string)
| ChooseFieldType (t : FieldType)
| TickRequired (b : bool)
| TypeSelectOptions (s : string)
| ClickAddField
| ClickRemove (index : nat)
| ClickCreate (post_ok : bool).

(** The handlers: [{ ...newField, name: ... }] and the like keep the other
    properties of [newField]. *)
Definition step (st : State) (a : Action) : State * option Request :=
  match a with
  | TypeSchemaName s =>
      ({| schemaName := s; fields := fields st; newField := newField st;
          selectOptions := selectOptions st |}, None)
  | TypeFieldName s =>
      ({| schemaName := schemaName st; fields := fields st;
          newField := {| name := s; type := type (newField st);
                         options := options (newField st);
                         required := required (newField st) |};
          selectOptions := selectOptions st |}, None)
  | ChooseFieldType t =>
      ({| schemaName := schemaName st; fields := fields st;
          newField := {| name := name (newField st); type := t;
                         options := options (newField st);
                         required := required (newField st) |};
          selectOptions := selectOptions st |}, None)
  | TickRequired b =>
      ({| schemaName := schemaName st; fields := fields st;
          newField := {| name := name (newField st); type := type (newField st);
                         options := options (newField st);
                         required := b |};
          selectOptions := selectOptions st |}, None)
  | TypeSelectOptions s =>
      ({| schemaName := schemaName st; fields := fields st; newField := newField st;
          selectOptions := s |}, None)
  | ClickAddField => (addField st, None)
  | ClickRemove index => (removeField st index, None)
  | ClickCreate post_ok => createSchema st post_ok
  end.

(** A session: the state it ends in and the requests it sent, in order. *)
Fixpoint run (st : State) (actions : list Action) : State * list Request :=
  match actions with
  | [] => (st, [])
  | a :: rest =>
      let '(st', sent) := step st a in
      let '(final, later) := run st' rest in
      (final, match sent with Some r => r :: later | None => later end)
  end.

End SchemaDesigner.

(** ** The export page: [exportToCSV] *)

Module ExportImport.

Import Server.

(** The line feed that separates the rows. *)
Definition LF : ascii := ascii_of_nat 10.

Section Csv.

(** [Number::toString], the decimal text of a number. *)
Variable Number_toString : float -> string.

(** What [join] writes for an element: nothing for [undefined] and [null],
    the string of the value otherwise. *)
Definition element_text (v : JS.value) : string :=
  match v with
  | JS.Undefined => ""
  | JS.Null => ""
  | JS.Bool true => "true"
  | JS.Bool false => "false"
  | JS.Num x => Number_toString x
  | JS.Str s => s
  end.

(** The cells of a row: [fields.map(f => data[f.name] || '')], as [join]
    writes them. *)
Definition cells (fields : list Field) (d : JS.object) : list string :=
  List.map
    (fun f => let v := JS.get d (name f) in
              element_text (if JS.ToBoolean v then v else JS.Str ""))
    fields.

(** What [exportToCSV] does: an alert, or a download. *)
Inductive Export : Type :=
| Alert (message : string)
| Download (filename content : string).

Definition exportToCSV (schema_name : string) (fields : list Field)
    (entries : list Entry) : Export :=
  match entries with
  | [] => Alert "No data to export"
  | _ =>
      let csvHeaders := JSString.join "," (List.map name fields) in
      let csvRows := List.map (fun entry => JSString.join "," (cells fields (data entry)))
                       entries in
      let csvContent := JSString.join (String LF "") (csvHeaders :: csvRows) in
      Download (schema_name ++ "_export.csv") csvContent
  end.

End Csv.

End ExportImport.

(* ===================================================================== *)
(** * Part II: the notions the properties are stated with                 *)
(* ===================================================================== *)

(** ** Binary64 values as integers

    Every number (a value other than [NaN]) is given an integer: its value in
    units of the least subnormal [2 ^ -1074], with the two infinities beyond
    every finite value.  The two zeros share the integer [0]. *)

Module Float64.

Local Open Scope Z_scope.

(** The least exponent of a binary64 mantissa. *)
Abbreviation emin64 := (-1074).

Definition SFval (x : spec_float) : Z :=
  match x with
  | S754_zero _ => 0
  | S754_infinity s => cond_Zopp s (2 ^ 2100)
  | S754_nan => 0
  | S754_finite s m e => cond_Zopp s (Zpos m * 2 ^ (e + 1074))
  end.

(** A specification-level float that is a number in the binary64 format. *)
Definition SFnumber (x : spec_float) : Prop :=
  x <> S754_nan /\ valid_binary x = true.

(** The value is not zero and has sign [s]. *)
Definition has_sign (s : bool) (x : spec_float) : Prop :=
  match x with
  | S754_finite s' _ _ | S754_infinity s' => s' = s
  | _ => False
  end.

(** The integer of a float. *)
Definition fval (a : float) : Z := SFval (Prim2SF a).

(** A float that is not [NaN]. *)
Definition not_nan (a : float) : Prop := PrimFloat.is_nan a = false.

(** SameValueZero: the same float, or two zeros of any sign. *)
Definition same_value_zero (a b : float) : Prop :=
  a = b \/ (PrimFloat.is_zero a = true /\ PrimFloat.is_zero b = true).

(** [a <= b] on floats, as a proposition. *)
Definition le (a b : float) : Prop := (a <=? b)%float = true.

(** The order of the integers of two floats. *)
Definition val_le (a b : float) : Prop := fval a <= fval b.

(** An integer that also tells the two zeros apart: [-0] comes just below
    [+0]. *)
Definition zkey (a : float) : Z :=
  2 * fval a + (if JS.is_neg_zero a then 0 else 1).

End Float64.

(** ** Notions of the statistics and of the entry form *)

Module Spec.

Import Server.

(** The double nearest to the decimal [0.1]. *)
Definition tenth : float := 0x1.999999999999ap-4%float.

(** [x * x], the correctly rounded square: one admissible [Math.pow(x, 2)]. *)
Definition square_pow (x y : float) : float := (x * x)%float.

(** [key] is the name of this field and the field is numeric. *)
Definition is_number_field (key : string) (field : Field) : bool :=
  bool_decide (type field = number) && bool_decide (name field = key).

(** A record's value under [key] is usable when [parseFloat] of it is a
    number. *)
Definition usable (key : string) (item : JS.object) : bool :=
  negb (JS.isNaN (JS.parseFloat (JS.get item key))).

(** The count reported for [key], [0] when the key is absent. *)
Definition count_of (stats : gmap string Summary) (key : string) : nat :=
  match stats !! key with
  | Some s => count s
  | None => 0
  end.

(** Arithmetic mean: the sum, added up from [0] in list order, over the
    number of values. *)
Definition arithmetic_mean (xs : list float) : float :=
  (sum xs / JS.Number_of_nat (length xs))%float.

(** Population variance: the mean of the squared deviations from the
    arithmetic mean, so the divisor is the number [n] of values. *)
Definition population_variance (pow : float -> float -> float)
    (xs : list float) : float :=
  arithmetic_mean (List.map (fun x => pow (x - arithmetic_mean xs)%float 2%float) xs).

(** Sample variance: the same sum of squares over [n - 1]. *)
Definition sample_variance (pow : float -> float -> float)
    (xs : list float) : float :=
  (sum (List.map (fun x => pow (x - arithmetic_mean xs)%float 2%float) xs)
   / JS.Number_of_nat (length xs - 1))%float.

(** The included values of a field, in ascending order. *)
Definition sorted_values (data : list JS.object) (key : string) : list float :=
  JS.Array_sort ascending (field_values data key).

(** A record has no value, or a string without a numeric prefix, under
    [key]. *)
Definition missing_or_non_numeric (item : JS.object) (key : string) : Prop :=
  item !! key = None ∨
  ∃ s, item !! key = Some (JS.Str s) ∧ JS.read_literal s = None.

(** All of the string, up to white space around it, is a decimal literal:
    the string is the text of a number. *)
Definition numeric_string (s : string) : Prop :=
  ∃ lit rest, JS.read_literal s = Some (lit, rest) ∧ JS.TrimStart rest = "".

(** The outcome of a submission tells the caller that [field] failed. *)
Definition reports (o : DataEntry.Outcome) (field : Field) : Prop :=
  o = DataEntry.Alerted (DataEntry.required_message field).

(** A supplied value is one of the options of a select field. *)
Definition among_options (v : JS.value) (field : Field) : Prop :=
  ∃ s opts, v = JS.Str s ∧ options field = Some opts ∧ s ∈ opts.

(** Two summaries agree: they are the same, except that their medians may
    be zeros of different sign. *)
Definition same_summary (s s' : Summary) : Prop :=
  count s = count s' ∧
  mean s = mean s' ∧
  Float64.same_value_zero (median s) (median s') ∧
  min s = min s' ∧
  max s = max s' ∧
  standardDeviation s = standardDeviation s' ∧
  variance s = variance s'.

(** Two results report the same keys with summaries that agree. *)
Definition same_statistics (m m' : gmap string Summary) : Prop :=
  ∀ key, option_Forall2 same_summary (m !! key) (m' !! key).

(** [Math.pow(-0, 2)] and [Math.pow(+0, 2)] are the same number; ECMAScript
    makes both [+0]. *)
Definition pow_ignores_zero_sign (pow : float -> float -> float) : Prop :=
  pow PrimFloat.neg_zero 2%float = pow PrimFloat.zero 2%float.

(** The schema and the records of the examples. *)
Definition age : Field :=
  {| name := "age"; type := number; options := None; required := true |}.

Definition aged (v : JS.value) : JS.object := {[ "age" := v ]}.


(** Scenario 1 of the specification. *)
Definition ages_10_20_30 : list JS.object :=
  [aged (JS.Num 10); aged (JS.Num 20); aged (JS.Num 30)].

Definition ages_1_to_4 : list JS.object :=
  [aged (JS.Num 1); aged (JS.Num 2); aged (JS.Num 3); aged (JS.Num 4)].



(** The same three records in two orders; the strings read as [0], [-0]
    and [-0]. *)
Definition zeros_a : list JS.object :=
  [aged (JS.Str "0"); aged (JS.Str "-0"); aged (JS.Str "-0")].

Definition zeros_b : list JS.object :=
  [aged (JS.Str "-0"); aged (JS.Str "0"); aged (JS.Str "-0")].

(** The fields of the validation scenarios. *)
Definition score : Field :=
  {| name := "score"; type := number; options := None; required := true |}.

Definition rank : Field :=
  {| name := "rank"; type := select; options := Some ["low"; "high"];
     required := true |}.

Definition first_name : Field :=
  {| name := "first"; type := text; options := None; required := true |}.

Definition last_name : Field :=
  {| name := "last"; type := text; options := None; required := true |}.

(** A select field has a non-empty string as its supplied value. *)
Definition supplied (formData : JS.object) (field : Field) : Prop :=
  ∃ s, JS.get formData (name field) = JS.Str s ∧ s ≠ "".

End Spec.

(** ** Notions of the schema designer, the routes and the export *)

Module Terms.

Import Server Spec.

(** Some numeric field of the schema has the name [key]. *)
Definition numeric_name (fields : list Field) (key : string) : Prop :=
  ∃ field, field ∈ fields ∧ type field = number ∧ name field = key.

(** What a record contributes under [key]. *)
Definition parsed (key : string) (item : JS.object) : float :=
  JS.parseFloat (JS.get item key).

(** What is typed into the input of a field gives the field a value that
    counts as filled in: a number other than zero for a number input, a
    non-empty text for the others. *)
Definition fills (field : Field) (input : string) : bool :=
  match type field with
  | number =>
      let x := JS.parseFloat_string input in
      negb (PrimFloat.is_zero x || PrimFloat.is_nan x)
  | _ => negb (String.eqb input "")
  end.

(** The character [c] occurs in [s]. *)
Fixpoint contains (c : ascii) (s : string) : bool :=
  match s with
  | EmptyString => false
  | String d rest => Ascii.eqb d c || contains c rest
  end.

(** An option as the designer keeps it: not empty, without a comma, with
    no white space around it. *)
Definition clean_option (opt : string) : Prop :=
  opt <> EmptyString /\ contains "," opt = false /\ JSString.trim opt = opt.

(** A field as the designer means to build it: it has a name; a select
    field carries its options, each one clean; another field carries
    none. *)
Definition well_formed_field (field : Field) : Prop :=
  name field <> EmptyString /\
  match type field with
  | select => exists opts, options field = Some opts /\ Forall clean_option opts
  | _ => options field = None
  end.

(** What every state of the designer satisfies. *)
Definition designer_invariant (st : SchemaDesigner.State) : Prop :=
  options (SchemaDesigner.newField st) = None /\
  Forall well_formed_field (SchemaDesigner.fields st).

(** A request the server can turn into a schema the other pages use. *)
Definition sound_request (r : SchemaDesigner.Request) : Prop :=
  SchemaDesigner.posted_name r <> EmptyString /\
  SchemaDesigner.posted_fields r <> nil /\
  Forall well_formed_field (SchemaDesigner.posted_fields r).

(** A text that a CSV file holds as it is: no comma and no line feed. *)
Definition plain (s : string) : Prop :=
  contains "," s = false /\ contains ExportImport.LF s = false.


(** The rows and the entries of the examples. *)
Definition people : Routes.SchemaRow :=
  {| Routes.schema_id := 1; Routes.schema_name := "people";
     Routes.schema_fields := [first_name; age] |}.

Definition entry_of (id : Z) (d : JS.object) : Entry :=
  {| schemaId := id; data := d |}.

Definition ann_lee : JS.object :=
  {[ "first" := JS.Str "Ann"; "last" := JS.Str "Lee" ]}.


(** A designer with three fields added. *)
Definition three_fields : SchemaDesigner.State :=
  {| SchemaDesigner.schemaName := "people";
     SchemaDesigner.fields := [first_name; age; rank];
     SchemaDesigner.newField := SchemaDesigner.blank_field;
     SchemaDesigner.selectOptions := "" |}.

(** The examples of the export hold no numbers. *)
Definition no_numbers (x : float) : string := "".

End Terms.

(* ===================================================================== *)
(** * Part III: properties                                                *)
(* ===================================================================== *)

(** ** Binary64 arithmetic: rounding keeps the sign, order is integer order *)

Module Float64Facts.

Import Float64.

Local Open Scope Z_scope.

(** ** Digits and shifts *)

Lemma digits2_pos_bounds (m : positive) :
  2 ^ (Zpos (digits2_pos m) - 1) <= Zpos m < 2 ^ Zpos (digits2_pos m).
Proof.
  induction m as [m IH|m IH|]; simpl digits2_pos.
  - rewrite Pos2Z.inj_succ.
    replace (Z.succ (Zpos (digits2_pos m)) - 1) with (Z.succ (Zpos (digits2_pos m) - 1)) by lia.
    rewrite !Z.pow_succ_r by lia. lia.
  - rewrite Pos2Z.inj_succ.
    replace (Z.succ (Zpos (digits2_pos m)) - 1) with (Z.succ (Zpos (digits2_pos m) - 1)) by lia.
    rewrite !Z.pow_succ_r by lia. lia.
  - simpl. lia.
Qed.

Lemma iter_xO_spec (m d : positive) :
  Zpos (Pos.iter xO m d) = Zpos m * 2 ^ Zpos d.
Proof.
  induction d as [|d IH] using Pos.peano_ind.
  - simpl. lia.
  - rewrite Pos.iter_succ, Pos2Z.inj_succ, Z.pow_succ_r by lia.
    rewrite Pos2Z.inj_xO, IH. lia.
Qed.

Lemma shl_align_fst (m : positive) (e e' : Z) :
  e' <= e -> Zpos (fst (shl_align m e e')) = Zpos m * 2 ^ (e - e').
Proof.
  intros Hle. unfold shl_align.
  destruct (e' - e) as [|d|d] eqn:Hd; simpl fst.
  - replace (e - e') with 0 by lia. simpl. lia.
  - lia.
  - rewrite iter_xO_spec. f_equal. f_equal. lia.
Qed.

Lemma shl_align_snd_ge (m : positive) (e e' lo : Z) :
  lo <= e -> lo <= e' -> lo <= snd (shl_align m e e').
Proof.
  intros. unfold shl_align. destruct (e' - e); simpl; assumption.
Qed.

Lemma shr_1_m (mrs : shr_record) :
  0 <= shr_m mrs -> shr_m (shr_1 mrs) = shr_m mrs / 2.
Proof.
  destruct mrs as [m r s]. simpl. intros Hm.
  destruct m as [|p|p]; [reflexivity| |lia].
  destruct p as [p|p|]; simpl shr_m.
  - rewrite Pos2Z.inj_xI. apply Z.div_unique with 1; lia.
  - rewrite Pos2Z.inj_xO. apply Z.div_unique with 0; lia.
  - reflexivity.
Qed.

Lemma iter_pos_shr_1_m (p : positive) (mrs : shr_record) :
  0 <= shr_m mrs ->
  shr_m (SpecFloat.iter_pos shr_1 p mrs) = shr_m mrs / 2 ^ Zpos p.
Proof.
  revert mrs. induction p as [p IH|p IH|]; intros mrs Hm; simpl SpecFloat.iter_pos.
  - assert (H1 : 0 <= shr_m (shr_1 mrs)).
    { rewrite shr_1_m by assumption. apply Z.div_pos; lia. }
    assert (H2 : 0 <= shr_m (SpecFloat.iter_pos shr_1 p (shr_1 mrs))).
    { rewrite IH by assumption. apply Z.div_pos; [assumption|]. apply Z.pow_pos_nonneg; lia. }
    rewrite IH, IH, shr_1_m by assumption.
    rewrite !Z.div_div by (try apply Z.pow_pos_nonneg; lia).
    f_equal. replace (Zpos p~1) with (Z.succ (Zpos p + Zpos p)) by lia.
    rewrite Z.pow_succ_r, Z.pow_add_r by lia. lia.
  - assert (H2 : 0 <= shr_m (SpecFloat.iter_pos shr_1 p mrs)).
    { rewrite IH by assumption. apply Z.div_pos; [assumption|]. apply Z.pow_pos_nonneg; lia. }
    rewrite IH, IH by assumption.
    rewrite !Z.div_div by (try apply Z.pow_pos_nonneg; lia).
    f_equal. replace (Zpos p~0) with (Zpos p + Zpos p) by lia.
    rewrite Z.pow_add_r by lia. lia.
  - rewrite shr_1_m by assumption. reflexivity.
Qed.


Lemma fexp_ge_emin (e : Z) : emin64 <= fexp prec emax e.
Proof. unfold fexp, SpecFloat.emin, prec, emax. lia. Qed.

(** Shifting a positive mantissa to its canonical exponent keeps it
    positive. *)
Lemma shr_fexp_pos (m e : Z) (l : location) :
  0 < m -> emin64 <= e ->
  0 < shr_m (fst (shr_fexp prec emax m e l)) /\
  emin64 <= snd (shr_fexp prec emax m e l).
Proof.
  intros Hm He. unfold shr_fexp, shr.
  destruct m as [|m|m]; try lia. simpl Zdigits2.
  pose proof (digits2_pos_bounds m) as [Hlo Hhi].
  set (D := Zpos (digits2_pos m)) in *.
  assert (Hrec : shr_m (shr_record_of_loc (Zpos m) l) = Zpos m).
  { destruct l as [|[]]; reflexivity. }
  destruct (fexp prec emax (D + e) - e) as [|p|p] eqn:Hn; simpl fst; simpl snd.
  - rewrite Hrec. lia.
  - rewrite iter_pos_shr_1_m by (rewrite Hrec; lia). rewrite Hrec.
    unfold fexp, SpecFloat.emin, prec, emax in Hn.
    assert (Hp : Zpos p = D - 53) by lia.
    split; [|lia].
    apply Z.div_str_pos. split; [apply Z.pow_pos_nonneg; lia|].
    etransitivity; [|exact Hlo]. apply Z.pow_le_mono_r; lia.
  - rewrite Hrec. lia.
Qed.

Lemma round_nearest_even_pos (m : Z) (l : location) :
  0 < m -> 0 < round_nearest_even m l.
Proof.
  intros Hm. destruct l as [|[]]; simpl; try lia.
  destruct (Z.even m); lia.
Qed.


Lemma binary_round_aux_sign (s : bool) (m e : Z) (l : location) :
  0 < m -> emin64 <= e -> has_sign s (binary_round_aux prec emax s m e l).
Proof.
  intros Hm He. unfold binary_round_aux.
  pose proof (shr_fexp_pos m e l Hm He) as [H1 H1'].
  destruct (shr_fexp prec emax m e l) as [mrs' e']. simpl fst in *. simpl snd in *.
  pose proof (round_nearest_even_pos _ (loc_of_shr_record mrs') H1) as H2.
  pose proof (shr_fexp_pos _ e' loc_Exact H2 H1') as [H3 _].
  destruct (shr_fexp prec emax _ e' loc_Exact) as [mrs'' e'']. simpl fst in *.
  destruct (shr_m mrs''); try lia.
  destruct (e'' <=? emax - prec); reflexivity.
Qed.

Lemma binary_round_sign (s : bool) (m : positive) (e : Z) :
  emin64 <= e -> has_sign s (binary_round prec emax s m e).
Proof.
  intros He. unfold binary_round.
  pose proof (shl_align_snd_ge m e (fexp prec emax (Zpos (digits2_pos m) + e)) _ He (fexp_ge_emin _)) as H.
  destruct (shl_align m e _) as [mz ez]. simpl snd in H.
  apply binary_round_aux_sign; lia.
Qed.


(** ** The order of binary64 values *)



Lemma valid_finite_bounds (s : bool) (m : positive) (e : Z) :
  valid_binary (S754_finite s m e) = true ->
  emin64 <= e <= 971 /\ Zpos m < 2 ^ 53 /\ (emin64 < e -> 2 ^ 52 <= Zpos m).
Proof.
  simpl. unfold bounded, canonical_mantissa, fexp, SpecFloat.emin, prec, emax.
  intros H. apply andb_prop in H as [H1 H2].
  apply Z.eqb_eq in H1. apply Z.leb_le in H2.
  pose proof (digits2_pos_bounds m) as [Hlo Hhi].
  set (D := Zpos (digits2_pos m)) in *.
  split; [lia|]. split.
  - eapply Z.lt_le_trans; [exact Hhi|]. apply Z.pow_le_mono_r; lia.
  - intros He. assert (D = 53) as HD by lia. rewrite HD in Hlo. exact Hlo.
Qed.

Lemma finite_val_bounds (s : bool) (m : positive) (e : Z) :
  valid_binary (S754_finite s m e) = true ->
  0 < Zpos m * 2 ^ (e + 1074) < 2 ^ 2100.
Proof.
  intros Hv. apply valid_finite_bounds in Hv as (He & Hm & _).
  assert (0 < 2 ^ (e + 1074)) by (apply Z.pow_pos_nonneg; lia).
  split; [lia|].
  apply Z.lt_le_trans with (2 ^ 53 * 2 ^ (e + 1074)).
  - apply Z.mul_lt_mono_pos_r; lia.
  - rewrite <- Z.pow_add_r by lia. apply Z.pow_le_mono_r; lia.
Qed.

(** Two positive finite values compare as their integers do. *)
Lemma finite_compare_val (m1 m2 : positive) (e1 e2 : Z) :
  valid_binary (S754_finite false m1 e1) = true ->
  valid_binary (S754_finite false m2 e2) = true ->
  match e1 ?= e2 with
  | Lt => Lt
  | Gt => Gt
  | Eq => Pos.compare_cont Eq m1 m2
  end = (Zpos m1 * 2 ^ (e1 + 1074) ?= Zpos m2 * 2 ^ (e2 + 1074)).
Proof.
  intros H1 H2.
  apply valid_finite_bounds in H1 as (He1 & Hm1 & Hn1).
  apply valid_finite_bounds in H2 as (He2 & Hm2 & Hn2).
  destruct (Z.compare_spec e1 e2) as [Heq|Hlt|Hgt].
  - subst e2. symmetry.
    assert (0 < 2 ^ (e1 + 1074)) by (apply Z.pow_pos_nonneg; lia).
    rewrite <- Zmult_compare_compat_r by lia. reflexivity.
  - symmetry. apply Z.compare_lt_iff.
    replace (e2 + 1074) with ((e2 - e1) + (e1 + 1074)) by lia.
    rewrite (Z.pow_add_r 2 (e2 - e1)), Z.mul_assoc by lia.
    apply Z.mul_lt_mono_pos_r; [apply Z.pow_pos_nonneg; lia|].
    apply Z.lt_le_trans with (2 ^ 53); [assumption|].
    apply Z.le_trans with (2 ^ 52 * 2 ^ 1); [reflexivity|].
    apply Z.mul_le_mono_nonneg; try lia.
    apply Z.pow_le_mono_r; lia.
  - symmetry. apply Z.compare_gt_iff.
    replace (e1 + 1074) with ((e1 - e2) + (e2 + 1074)) by lia.
    rewrite (Z.pow_add_r 2 (e1 - e2)), Z.mul_assoc by lia.
    apply Z.mul_lt_mono_pos_r; [apply Z.pow_pos_nonneg; lia|].
    apply Z.lt_le_trans with (2 ^ 53); [assumption|].
    apply Z.le_trans with (2 ^ 52 * 2 ^ 1); [reflexivity|].
    apply Z.mul_le_mono_nonneg; try lia.
    apply Z.pow_le_mono_r; lia.
Qed.

Lemma SFcompare_val (x y : spec_float) :
  SFnumber x -> SFnumber y ->
  SFcompare x y = Some (SFval x ?= SFval y).
Proof.
  intros [Hx Vx] [Hy Vy].
  assert (Hp : 0 < 2 ^ 2100) by (apply Z.pow_pos_nonneg; lia).
  destruct x as [sx|sx| |sx mx ex]; [| |congruence|];
  destruct y as [sy|sy| |sy my ey]; try congruence;
  try pose proof (finite_val_bounds _ _ _ Vx) as Hbx;
  try pose proof (finite_val_bounds _ _ _ Vy) as Hby;
  cbn [SFcompare SFval]; f_equal.
  - symmetry. destruct sy; cbn [cond_Zopp];
      [apply Z.compare_gt_iff|apply Z.compare_lt_iff]; lia.
  - symmetry. destruct sy; cbn [cond_Zopp];
      [apply Z.compare_gt_iff|apply Z.compare_lt_iff]; lia.
  - symmetry. destruct sx; cbn [cond_Zopp];
      [apply Z.compare_lt_iff|apply Z.compare_gt_iff]; lia.
  - symmetry. destruct sx, sy; cbn [cond_Zopp];
      [apply Z.compare_eq_iff|apply Z.compare_lt_iff
      |apply Z.compare_gt_iff|apply Z.compare_eq_iff]; lia.
  - symmetry. destruct sx; cbn [cond_Zopp];
      [apply Z.compare_lt_iff|apply Z.compare_gt_iff]; destruct sy; cbn [cond_Zopp]; lia.
  - symmetry. destruct sx; cbn [cond_Zopp];
      [apply Z.compare_lt_iff|apply Z.compare_gt_iff]; lia.
  - symmetry. destruct sy; cbn [cond_Zopp];
      [apply Z.compare_gt_iff|apply Z.compare_lt_iff]; destruct sx; cbn [cond_Zopp]; lia.
  - destruct sx, sy; cbn [cond_Zopp].
    + rewrite Z.compare_opp, (Z.compare_antisym (_ * _) (_ * _)).
      rewrite <- (finite_compare_val mx my ex ey) by assumption.
      destruct (ex ?= ey); reflexivity.
    + symmetry. apply Z.compare_lt_iff. lia.
    + symmetry. apply Z.compare_gt_iff. lia.
    + apply finite_compare_val; assumption.
Qed.

(** Numbers with the same integer are the same number, or two zeros. *)
Lemma SFval_inj (x y : spec_float) :
  SFnumber x -> SFnumber y -> SFval x = SFval y ->
  x = y \/ (exists sx sy, x = S754_zero sx /\ y = S754_zero sy).
Proof.
  intros Nx Ny Hv.
  pose proof (SFcompare_val x y Nx Ny) as Hc.
  rewrite Hv, Z.compare_refl in Hc.
  destruct Nx as [Hx _], Ny as [Hy _].
  destruct x as [sx|sx| |sx mx ex]; [| |congruence|];
  destruct y as [sy|sy| |sy my ey]; try congruence;
  simpl in Hc; try (destruct sx; discriminate); try (destruct sy; discriminate).
  - right. eauto.
  - left. destruct sx, sy; congruence.
  - left. injection Hc as Hc.
    assert (sx = sy /\ (ex ?= ey) = Eq /\ Pos.compare_cont Eq mx my = Eq) as (-> & He & Hm).
    { destruct sx, sy; try discriminate; destruct (ex ?= ey); try discriminate;
      (split; [reflexivity|split; [reflexivity|]]);
      [destruct (Pos.compare_cont Eq mx my); simpl in Hc; congruence|assumption]. }
    apply Z.compare_eq in He. apply Pos.compare_eq in Hm. congruence.
Qed.


(** The sign of a difference is the order of its operands: the comparator
    [a - b] of the sort is positive exactly when [b < a]. *)
Lemma SFsub_positive (x y : spec_float) :
  SFnumber x -> SFnumber y ->
  SFltb (S754_zero false) (SF64sub x y) = (SFval y <? SFval x).
Proof.
  intros [Hx Vx] [Hy Vy].
  assert (Hp : 0 < 2 ^ 2100) by (apply Z.pow_pos_nonneg; lia).
  destruct x as [sx|sx| |sx mx ex]; [| |congruence|];
  destruct y as [sy|sy| |sy my ey]; try congruence;
  try pose proof (finite_val_bounds _ _ _ Vx) as Hbx;
  try pose proof (finite_val_bounds _ _ _ Vy) as Hby;
  unfold SF64sub; cbn [SFsub SFval]; symmetry.
  - destruct sx, sy; reflexivity.
  - destruct sy; cbn [cond_Zopp negb]; [apply Z.ltb_lt|apply Z.ltb_ge]; lia.
  - destruct sy; cbn [cond_Zopp negb]; [apply Z.ltb_lt|apply Z.ltb_ge]; lia.
  - destruct sx; cbn [cond_Zopp]; [apply Z.ltb_ge|apply Z.ltb_lt]; lia.
  - destruct sx, sy; cbn [cond_Zopp];
      [apply Z.ltb_ge|apply Z.ltb_ge|apply Z.ltb_lt|apply Z.ltb_ge]; lia.
  - destruct sx; cbn [cond_Zopp];
      [apply Z.ltb_ge|apply Z.ltb_lt]; destruct sy; cbn [cond_Zopp]; lia.
  - destruct sx; cbn [cond_Zopp]; [apply Z.ltb_ge|apply Z.ltb_lt]; lia.
  - destruct sy; cbn [cond_Zopp negb];
      [apply Z.ltb_lt|apply Z.ltb_ge]; destruct sx; cbn [cond_Zopp]; lia.
  - apply valid_finite_bounds in Vx as (Hex & _ & _).
    apply valid_finite_bounds in Vy as (Hey & _ & _).
    set (ez := Z.min ex ey).
    assert (Hez : emin64 <= ez) by (subst ez; lia).
    rewrite !shl_align_fst by (subst ez; lia).
    set (M := cond_Zopp sx (Zpos mx * 2 ^ (ex - ez))
              - cond_Zopp sy (Zpos my * 2 ^ (ey - ez))).
    assert (HK : 0 < 2 ^ (ez + 1074)) by (apply Z.pow_pos_nonneg; lia).
    assert (HM : cond_Zopp sx (Zpos mx * 2 ^ (ex + 1074))
                 - cond_Zopp sy (Zpos my * 2 ^ (ey + 1074))
                 = M * 2 ^ (ez + 1074)).
    { subst M.
      replace (ex + 1074) with ((ex - ez) + (ez + 1074)) by lia.
      replace (ey + 1074) with ((ey - ez) + (ez + 1074)) by lia.
      rewrite (Z.pow_add_r 2 (ex - ez)), (Z.pow_add_r 2 (ey - ez)) by (subst ez; lia).
      destruct sx, sy; cbn [cond_Zopp]; ring. }
    destruct M as [|p|p] eqn:HMs; cbn [binary_normalize].
    + apply Z.ltb_ge. lia.
    + pose proof (binary_round_sign false p ez Hez) as Hs.
      destruct (binary_round prec emax false p ez) as [| s | | s ? ?];
        cbn [has_sign] in Hs; try contradiction; subst s;
        (transitivity true; [apply Z.ltb_lt; nia|reflexivity]).
    + pose proof (binary_round_sign true p ez Hez) as Hs.
      destruct (binary_round prec emax true p ez) as [| s | | s ? ?];
        cbn [has_sign] in Hs; try contradiction; subst s;
        (transitivity false; [apply Z.ltb_ge; nia|reflexivity]).
Qed.

(** ** The same facts on primitive floats *)

Local Open Scope float_scope.


Lemma is_nan_SF (a : float) :
  PrimFloat.is_nan a = match Prim2SF a with S754_nan => true | _ => false end.
Proof.
  unfold PrimFloat.is_nan. rewrite FloatAxioms.eqb_spec. unfold SFeqb.
  destruct (Prim2SF a) as [s|s| |s m e] eqn:Ha; try reflexivity.
  - destruct s; reflexivity.
  - rewrite SFcompare_val, Z.compare_refl; [reflexivity| |];
      (split; [discriminate|rewrite <- Ha; apply Prim2SF_valid]).
Qed.

Lemma number_SF (a : float) :
  PrimFloat.is_nan a = false -> SFnumber (Prim2SF a).
Proof.
  rewrite is_nan_SF. intros H. split; [|apply Prim2SF_valid].
  intros Ha. rewrite Ha in H. discriminate.
Qed.

Lemma ltb_val (a b : float) :
  PrimFloat.is_nan a = false -> PrimFloat.is_nan b = false ->
  (a <? b) = (fval a <? fval b)%Z.
Proof.
  intros Ha Hb. rewrite FloatAxioms.ltb_spec. unfold SFltb.
  rewrite SFcompare_val by (apply number_SF; assumption).
  unfold Z.ltb, fval. destruct (_ ?= _)%Z; reflexivity.
Qed.

Lemma leb_val (a b : float) :
  PrimFloat.is_nan a = false -> PrimFloat.is_nan b = false ->
  (a <=? b) = (fval a <=? fval b)%Z.
Proof.
  intros Ha Hb. rewrite FloatAxioms.leb_spec. unfold SFleb.
  rewrite SFcompare_val by (apply number_SF; assumption).
  unfold Z.leb, fval. destruct (_ ?= _)%Z; reflexivity.
Qed.

Lemma sub_positive_val (a b : float) :
  PrimFloat.is_nan a = false -> PrimFloat.is_nan b = false ->
  (0 <? a - b) = (fval b <? fval a)%Z.
Proof.
  intros Ha Hb. rewrite FloatAxioms.ltb_spec, sub_spec.
  change (Prim2SF 0) with (S754_zero false).
  apply SFsub_positive; apply number_SF; assumption.
Qed.

(** Floats with the same integer are equal or are the two zeros. *)
Lemma fval_inj (a b : float) :
  PrimFloat.is_nan a = false -> PrimFloat.is_nan b = false ->
  fval a = fval b ->
  a = b \/ (PrimFloat.is_zero a = true /\ PrimFloat.is_zero b = true).
Proof.
  intros Ha Hb Hv.
  destruct (SFval_inj _ _ (number_SF a Ha) (number_SF b Hb) Hv)
    as [Heq|(sa & sb & Ea & Eb)].
  - left. apply Prim2SF_inj. exact Heq.
  - right. unfold PrimFloat.is_zero. rewrite !FloatAxioms.eqb_spec, Ea, Eb.
    split; reflexivity.
Qed.


(** ** Zeros and SameValueZero *)

Lemma is_zero_SF (a : float) :
  PrimFloat.is_zero a = match Prim2SF a with S754_zero _ => true | _ => false end.
Proof.
  unfold PrimFloat.is_zero. rewrite FloatAxioms.eqb_spec.
  change (Prim2SF PrimFloat.zero) with (S754_zero false).
  destruct (Prim2SF a) as [s|s| |s m e]; try reflexivity; destruct s; reflexivity.
Qed.

Lemma is_zero_cases (a : float) :
  PrimFloat.is_zero a = true -> a = PrimFloat.zero \/ a = PrimFloat.neg_zero.
Proof.
  rewrite is_zero_SF. intros H.
  rewrite <- (SF2Prim_Prim2SF a).
  destruct (Prim2SF a) as [s|s| |s m e]; try discriminate.
  destruct s; [right|left]; reflexivity.
Qed.

Lemma is_zero_fval (a : float) : PrimFloat.is_zero a = true -> fval a = 0%Z.
Proof.
  unfold fval. rewrite is_zero_SF. destruct (Prim2SF a); try discriminate. reflexivity.
Qed.

(** SameValueZero at the level of [spec_float]. *)
Lemma same_value_zero_SF (a b : float) :
  same_value_zero a b <->
  Prim2SF a = Prim2SF b \/
  exists sa sb, Prim2SF a = S754_zero sa /\ Prim2SF b = S754_zero sb.
Proof.
  unfold same_value_zero. rewrite !is_zero_SF. split.
  - intros [->|[Ha Hb]]; [by left|right].
    destruct (Prim2SF a) as [sa| | |]; try discriminate.
    destruct (Prim2SF b) as [sb| | |]; try discriminate. eauto.
  - intros [H|(sa & sb & -> & ->)]; [left; by apply Prim2SF_inj|right; done].
Qed.

#[global] Instance same_value_zero_refl : Reflexive same_value_zero.
Proof. intros a. by left. Qed.

#[global] Instance same_value_zero_sym : Symmetric same_value_zero.
Proof. intros a b [->|[Ha Hb]]; [by left|by right]. Qed.

#[global] Instance same_value_zero_trans : Transitive same_value_zero.
Proof.
  intros a b c [->|[Ha Hb]] [->|[Hb' Hc]]; try (by left); try (by right).
Qed.

Lemma add_same_value_zero (a a' b b' : float) :
  same_value_zero a a' -> same_value_zero b b' ->
  same_value_zero (a + b) (a' + b').
Proof.
  intros Ha Hb. apply same_value_zero_SF in Ha, Hb. apply same_value_zero_SF.
  rewrite !add_spec. unfold SF64add.
  destruct Ha as [->|(sa & sa' & -> & ->)]; destruct Hb as [->|(sb & sb' & -> & ->)].
  - by left.
  - destruct (Prim2SF a') as [s|s| |s m e]; cbn [SFadd]; try (by left).
    right. destruct s, sb, sb'; eauto.
  - destruct (Prim2SF b') as [s|s| |s m e]; cbn [SFadd]; try (by left).
    right. destruct s, sa, sa'; eauto.
  - right. cbn [SFadd]. destruct sa, sa', sb, sb'; eauto.
Qed.

Lemma sub_same_value_zero (a a' b b' : float) :
  same_value_zero a a' -> same_value_zero b b' ->
  same_value_zero (a - b) (a' - b').
Proof.
  intros Ha Hb. apply same_value_zero_SF in Ha, Hb. apply same_value_zero_SF.
  rewrite !sub_spec. unfold SF64sub.
  destruct Ha as [->|(sa & sa' & -> & ->)]; destruct Hb as [->|(sb & sb' & -> & ->)].
  - by left.
  - destruct (Prim2SF a') as [s|s| |s m e]; cbn [SFsub]; try (by left).
    right. destruct s, sb, sb'; eauto.
  - destruct (Prim2SF b') as [s|s| |s m e]; cbn [SFsub]; try (by left).
    right. destruct s, sa, sa'; eauto.
  - right. cbn [SFsub]. destruct sa, sa', sb, sb'; eauto.
Qed.

(** Division respects SameValueZero in the dividend. *)
Lemma div_same_value_zero (a a' d : float) :
  same_value_zero a a' -> same_value_zero (a / d) (a' / d).
Proof.
  intros Ha. apply same_value_zero_SF in Ha. apply same_value_zero_SF.
  rewrite !div_spec. unfold SF64div.
  destruct Ha as [->|(sa & sa' & -> & ->)]; [by left|].
  destruct (Prim2SF d) as [s|s| |s m e]; cbn [SFdiv]; try (by left); right; eauto.
Qed.

Lemma same_value_zero_fval (a b : float) :
  not_nan a -> not_nan b -> fval a = fval b <-> same_value_zero a b.
Proof.
  intros Ha Hb. split; [by apply fval_inj|].
  intros [->|[Za Zb]]; [reflexivity|]. by rewrite !is_zero_fval.
Qed.

(** ** Sums never come out as [-0] unless they start there *)

Lemma Prim2SF_neg_zero (a : float) :
  Prim2SF a = S754_zero true -> a = PrimFloat.neg_zero.
Proof. intros H. rewrite <- (SF2Prim_Prim2SF a), H. reflexivity. Qed.

(** Adding a zero to anything but [-0] changes nothing. *)
Lemma add_zero_r (a z : float) :
  a <> PrimFloat.neg_zero -> PrimFloat.is_zero z = true -> a + z = a.
Proof.
  intros Ha Hz. apply Prim2SF_inj. rewrite add_spec. unfold SF64add.
  rewrite is_zero_SF in Hz.
  destruct (Prim2SF z) as [sz| | |]; try discriminate.
  destruct (Prim2SF a) as [sa|sa| |sa ma ea] eqn:Ea; try reflexivity.
  destruct sa; [by apply Prim2SF_neg_zero in Ea|]. by destruct sz.
Qed.

(** A sum is [-0] only when both terms are. *)
Lemma add_not_neg_zero (a x : float) :
  a <> PrimFloat.neg_zero -> a + x <> PrimFloat.neg_zero.
Proof.
  intros Ha Hsum.
  assert (Hs : Prim2SF (a + x) = S754_zero true) by (by rewrite Hsum).
  rewrite add_spec in Hs. unfold SF64add in Hs.
  pose proof (Prim2SF_valid a) as Va. pose proof (Prim2SF_valid x) as Vx.
  destruct (Prim2SF a) as [sa|sa| |sa ma ea] eqn:Ea;
    destruct (Prim2SF x) as [sx|sx| |sx mx ex] eqn:Ex;
    cbn [SFadd] in Hs; try discriminate.
  - destruct sa; [by apply Prim2SF_neg_zero in Ea|]. by destruct sx.
  - by destruct sa, sx.
  - apply valid_finite_bounds in Va as (Hea & _ & _).
    apply valid_finite_bounds in Vx as (Hex & _ & _).
    set (ez := Z.min ea ex) in *.
    assert (Hez : (emin64 <= ez)%Z) by (subst ez; lia).
    destruct (_ + _)%Z as [|p|p]; cbn [binary_normalize] in Hs; [discriminate| |].
    + pose proof (binary_round_sign false p ez Hez) as H. rewrite Hs in H. exact H.
    + pose proof (binary_round_sign true p ez Hez) as H. rewrite Hs in H. exact H.
Qed.

Lemma zero_not_neg_zero : PrimFloat.zero <> PrimFloat.neg_zero.
Proof.
  intros H. apply FloatAxioms.Leibniz.eqb_spec in H. vm_compute in H. discriminate.
Qed.

(** ** The key that tells the zeros apart *)

Lemma zkey_inj (a b : float) :
  not_nan a -> not_nan b -> zkey a = zkey b -> a = b.
Proof.
  intros Ha Hb. unfold zkey. intros Hk.
  assert (Hv : fval a = fval b).
  { destruct (JS.is_neg_zero a), (JS.is_neg_zero b); lia. }
  destruct (fval_inj a b Ha Hb Hv) as [H|[Za Zb]]; [exact H|].
  apply is_zero_cases in Za, Zb.
  destruct Za as [-> | ->], Zb as [-> | ->]; try reflexivity;
    vm_compute in Hk; discriminate.
Qed.

Lemma is_neg_zero_fval (a : float) : JS.is_neg_zero a = true -> fval a = 0%Z.
Proof.
  intros H. apply FloatAxioms.Leibniz.eqb_spec in H. subst a. reflexivity.
Qed.

(** Below in value, or [-0] against [+0]. *)
Lemma zkey_lt (x lo : float) :
  not_nan x -> not_nan lo ->
  (zkey x <? zkey lo)%Z =
  ((JS.is_neg_zero x && JS.is_pos_zero lo) || (x <? lo))%bool.
Proof.
  intros Hx Hlo. rewrite (ltb_val x lo Hx Hlo). unfold zkey.
  destruct (JS.is_neg_zero x) eqn:Nx; destruct (JS.is_pos_zero lo) eqn:Plo; cbn [andb orb].
  - apply FloatAxioms.Leibniz.eqb_spec in Nx, Plo. subst. reflexivity.
  - destruct (JS.is_neg_zero lo) eqn:Nlo.
    + apply is_neg_zero_fval in Nx, Nlo. rewrite Nx, Nlo. reflexivity.
    + pose proof (is_neg_zero_fval x Nx) as Vx. rewrite Vx.
      destruct (Z.ltb_spec 0 (fval lo)) as [H|H]; [apply Z.ltb_lt; lia|].
      apply Z.ltb_ge.
      assert (fval lo <> 0)%Z; [|lia].
      intros Hv. assert (Hz : fval lo = fval PrimFloat.zero) by (rewrite Hv; reflexivity).
      destruct (fval_inj lo PrimFloat.zero Hlo eq_refl Hz) as [->|[Zlo _]].
      * vm_compute in Plo. discriminate.
      * apply is_zero_cases in Zlo. destruct Zlo as [-> | ->].
        -- vm_compute in Plo. discriminate.
        -- vm_compute in Nlo. discriminate.
  - apply FloatAxioms.Leibniz.eqb_spec in Plo. subst lo.
    change (JS.is_neg_zero PrimFloat.zero) with false.
    change (fval PrimFloat.zero) with 0%Z.
    destruct (Z.ltb_spec (fval x) 0) as [H|H]; [apply Z.ltb_lt; lia|].
    apply Z.ltb_ge. lia.
  - destruct (JS.is_neg_zero lo) eqn:Nlo.
    + pose proof (is_neg_zero_fval lo Nlo) as Vlo. rewrite Vlo.
      destruct (Z.ltb_spec (fval x) 0) as [H|H]; [apply Z.ltb_lt; lia|].
      apply Z.ltb_ge. lia.
    + destruct (Z.ltb_spec (fval x) (fval lo)) as [H|H];
        [apply Z.ltb_lt; lia|apply Z.ltb_ge; lia].
Qed.

End Float64Facts.

(** ** Arrays of numbers: the sort, [Math.min] and [Math.max] *)

Module ArrayFacts.

Import Float64 Float64Facts Server.

Local Open Scope float_scope.

Lemma length_sort_insert {A} (cmp : A -> A -> float) (x : A) (l : list A) :
  length (JS.sort_insert cmp x l) = S (length l).
Proof.
  induction l as [|y l IH]; simpl; [reflexivity|].
  destruct (0 <? cmp x y)%float; simpl; congruence.
Qed.

Lemma length_Array_sort {A} (cmp : A -> A -> float) (l : list A) :
  length (JS.Array_sort cmp l) = length l.
Proof.
  induction l as [|x l IH]; simpl; [reflexivity|].
  rewrite length_sort_insert. congruence.
Qed.

Lemma sort_insert_Permutation {A} (cmp : A -> A -> float) (x : A) (l : list A) :
  Permutation (JS.sort_insert cmp x l) (x :: l).
Proof.
  induction l as [|y l IH]; simpl; [reflexivity|].
  destruct (0 <? cmp x y)%float; [|reflexivity].
  rewrite IH. apply perm_swap.
Qed.

Lemma Array_sort_Permutation {A} (cmp : A -> A -> float) (l : list A) :
  Permutation (JS.Array_sort cmp l) l.
Proof.
  induction l as [|x l IH]; simpl; [reflexivity|].
  rewrite sort_insert_Permutation. by constructor.
Qed.

Lemma fold_left_add_map {A} (f : A -> float) (l : list A) (acc : float) :
  fold_left (fun a b => (a + b)%float) (List.map f l) acc =
  fold_left (fun a b => (a + f b)%float) l acc.
Proof.
  revert acc. induction l as [|x l IH]; intros acc; simpl; [reflexivity|].
  apply IH.
Qed.

#[global] Instance val_le_trans : Transitive val_le.
Proof. unfold val_le. intros a b c. lia. Qed.

Lemma le_val_le (a b : float) : not_nan a -> not_nan b -> le a b <-> val_le a b.
Proof.
  intros Ha Hb. unfold le, val_le. rewrite leb_val by assumption. apply Z.leb_le.
Qed.

(** The comparator of the sort is positive exactly when its operands are
    out of order. *)
Lemma ascending_positive (x y : float) :
  not_nan x -> not_nan y -> (0 <? ascending x y) = (fval y <? fval x)%Z.
Proof. intros Hx Hy. by apply sub_positive_val. Qed.

Lemma sort_insert_not_nan (x : float) (l : list float) :
  not_nan x -> Forall not_nan l -> Forall not_nan (JS.sort_insert ascending x l).
Proof.
  intros Hx Hl. induction Hl as [|y l Hy Hl IH]; simpl.
  - by constructor.
  - destruct (0 <? ascending x y); repeat constructor; assumption.
Qed.

Lemma Array_sort_not_nan (l : list float) :
  Forall not_nan l -> Forall not_nan (JS.Array_sort ascending l).
Proof.
  induction 1 as [|x l Hx Hl IH]; simpl; [constructor|].
  by apply sort_insert_not_nan.
Qed.

Lemma sort_insert_HdRel (a x : float) (l : list float) :
  val_le a x -> HdRel val_le a l -> HdRel val_le a (JS.sort_insert ascending x l).
Proof.
  intros Hax Hal. destruct l as [|y l]; simpl; [by constructor|].
  inversion_clear Hal. destruct (0 <? ascending x y); by constructor.
Qed.

Lemma sort_insert_Sorted (x : float) (l : list float) :
  not_nan x -> Forall not_nan l -> Sorted val_le l ->
  Sorted val_le (JS.sort_insert ascending x l).
Proof.
  intros Hx Hl Hs. induction Hs as [|y l Hs IH Hhd]; simpl.
  - repeat constructor.
  - inversion_clear Hl as [|? ? Hy Hl'].
    rewrite ascending_positive by assumption.
    destruct (fval y <? fval x)%Z eqn:Hlt.
    + apply Z.ltb_lt in Hlt. constructor; [by apply IH|].
      apply sort_insert_HdRel; [unfold val_le; lia|assumption].
    + apply Z.ltb_ge in Hlt. repeat constructor; assumption.
Qed.

(** The sort leaves the included values in ascending order. *)
Lemma Array_sort_Sorted (l : list float) :
  Forall not_nan l -> Sorted val_le (JS.Array_sort ascending l).
Proof.
  induction 1 as [|x l Hx Hl IH]; simpl; [constructor|].
  apply sort_insert_Sorted; [assumption|by apply Array_sort_not_nan|assumption].
Qed.

Lemma Array_sort_ascending (l : list float) :
  Forall not_nan l -> StronglySorted le (JS.Array_sort ascending l).
Proof.
  intros Hl.
  pose proof (Array_sort_not_nan l Hl) as Hn.
  pose proof (Sorted_StronglySorted _ _ (Array_sort_Sorted l Hl)) as Hs.
  induction Hs as [|x s Hs IH Hx]; [constructor|].
  inversion_clear Hn as [|? ? Hnx Hns].
  constructor; [by apply IH|].
  rewrite Forall_forall in Hx, Hns. apply Forall_forall. intros y Hy.
  apply le_val_le; auto.
Qed.

Lemma same_fval_same_value_zero (s1 s2 : list float) :
  Forall not_nan s1 -> Forall not_nan s2 ->
  List.map fval s1 = List.map fval s2 -> Forall2 same_value_zero s1 s2.
Proof.
  intros H1. revert s2. induction H1 as [|x s1 Hx H1 IH]; intros s2 H2 Heq.
  - destruct s2; [constructor|discriminate].
  - destruct H2 as [|y s2 Hy H2]; [discriminate|].
    injection Heq as Hxy Heq. constructor; [|by apply IH].
    by apply same_value_zero_fval.
Qed.

(** Sorting two orderings of the same numbers gives the same array, up to
    the signs of its zeros. *)
Lemma Array_sort_Permutation_same (l1 l2 : list float) :
  Forall not_nan l1 -> Permutation l1 l2 ->
  Forall2 same_value_zero (JS.Array_sort ascending l1) (JS.Array_sort ascending l2).
Proof.
  intros H1 Hp.
  assert (H2 : Forall not_nan l2) by (by rewrite <- Hp).
  apply same_fval_same_value_zero; try by apply Array_sort_not_nan.
  apply (Sorted_unique Z.le).
  - apply (Sorted_fmap fval val_le); [done|by apply Array_sort_Sorted].
  - apply (Sorted_fmap fval val_le); [done|by apply Array_sort_Sorted].
  - apply Permutation_map.
    rewrite !Array_sort_Permutation. exact Hp.
Qed.

(** *** [Math.min] and [Math.max] bound their arguments *)

Lemma is_pos_zero_eq (a : float) : JS.is_pos_zero a = true -> a = PrimFloat.zero.
Proof. apply FloatAxioms.Leibniz.eqb_spec. Qed.

Lemma is_neg_zero_eq (a : float) : JS.is_neg_zero a = true -> a = PrimFloat.neg_zero.
Proof. apply FloatAxioms.Leibniz.eqb_spec. Qed.

Lemma Math_min_from_spec (l : list float) (lowest : float) :
  not_nan lowest -> Forall not_nan l ->
  not_nan (JS.Math_min_from lowest l) /\
  val_le (JS.Math_min_from lowest l) lowest /\
  Forall (val_le (JS.Math_min_from lowest l)) l.
Proof.
  intros Hlo Hl. revert lowest Hlo.
  induction Hl as [|x l Hx Hl IH]; intros lowest Hlo; simpl.
  - unfold val_le. split; [assumption|]. split; [lia|constructor].
  - unfold JS.isNaN. rewrite Hx.
    set (lowest1 := if (JS.is_neg_zero x && JS.is_pos_zero lowest)%bool
                    then PrimFloat.neg_zero else lowest).
    assert (H1 : not_nan lowest1 /\ fval lowest1 = fval lowest).
    { subst lowest1. destruct (JS.is_neg_zero x && JS.is_pos_zero lowest)%bool eqn:E;
        [|by split].
      apply andb_prop in E as [_ E]. apply is_pos_zero_eq in E. subst lowest.
      split; reflexivity. }
    destruct H1 as [Hn1 Hv1].
    set (lowest2 := if x <? lowest1 then x else lowest1).
    assert (H2 : not_nan lowest2 /\ val_le lowest2 lowest /\ val_le lowest2 x).
    { subst lowest2. unfold val_le. rewrite ltb_val by assumption.
      destruct (fval x <? fval lowest1)%Z eqn:E;
        [apply Z.ltb_lt in E|apply Z.ltb_ge in E]; (split; [assumption|lia]). }
    destruct H2 as (Hn2 & Hle2 & Hx2).
    destruct (IH lowest2 Hn2) as (Hr & Hrl & Hrest).
    split; [assumption|]. unfold val_le in *. split; [lia|].
    constructor; [lia|assumption].
Qed.

Lemma Math_max_from_spec (l : list float) (highest : float) :
  not_nan highest -> Forall not_nan l ->
  not_nan (JS.Math_max_from highest l) /\
  val_le highest (JS.Math_max_from highest l) /\
  Forall (fun x => val_le x (JS.Math_max_from highest l)) l.
Proof.
  intros Hhi Hl. revert highest Hhi.
  induction Hl as [|x l Hx Hl IH]; intros highest Hhi; simpl.
  - unfold val_le. split; [assumption|]. split; [lia|constructor].
  - unfold JS.isNaN. rewrite Hx.
    set (highest1 := if (JS.is_pos_zero x && JS.is_neg_zero highest)%bool
                     then PrimFloat.zero else highest).
    assert (H1 : not_nan highest1 /\ fval highest1 = fval highest).
    { subst highest1. destruct (JS.is_pos_zero x && JS.is_neg_zero highest)%bool eqn:E;
        [|by split].
      apply andb_prop in E as [_ E]. apply is_neg_zero_eq in E. subst highest.
      split; reflexivity. }
    destruct H1 as [Hn1 Hv1].
    set (highest2 := if highest1 <? x then x else highest1).
    assert (H2 : not_nan highest2 /\ val_le highest highest2 /\ val_le x highest2).
    { subst highest2. unfold val_le. rewrite ltb_val by assumption.
      destruct (fval highest1 <? fval x)%Z eqn:E;
        [apply Z.ltb_lt in E|apply Z.ltb_ge in E]; (split; [assumption|lia]). }
    destruct H2 as (Hn2 & Hle2 & Hx2).
    destruct (IH highest2 Hn2) as (Hr & Hrl & Hrest).
    split; [assumption|]. unfold val_le in *. split; [lia|].
    constructor; [lia|]. eapply Forall_impl; [exact Hrest|]. simpl. intros; lia.
Qed.



(** *** Arithmetic over arrays respects SameValueZero *)

Lemma at_index_same (l l' : list float) (i : nat) :
  Forall2 same_value_zero l l' -> same_value_zero (at_index l i) (at_index l' i).
Proof.
  intros Hl. revert i. unfold at_index.
  induction Hl as [|x x' l l' Hx Hl IH]; intros [|i]; simpl; try reflexivity; auto.
Qed.

Lemma getMedian_same (l l' : list float) :
  Forall2 same_value_zero l l' -> same_value_zero (getMedian l) (getMedian l').
Proof.
  intros Hl. unfold getMedian. rewrite <- (Forall2_length _ _ _ Hl).
  destruct (negb (length l mod 2 =? 0)%nat).
  - by apply at_index_same.
  - apply div_same_value_zero, add_same_value_zero; by apply at_index_same.
Qed.

(** *** [Math.min], [Math.max] and sums do not depend on the order *)

Lemma fold_Z_min_Permutation (l l' : list Z) (a : Z) :
  Permutation l l' -> fold_left Z.min l a = fold_left Z.min l' a.
Proof.
  intros Hp. revert a.
  induction Hp as [|x l l' Hp IH|x y l|l1 l2 l3 H12 IH12 H23 IH23]; intros a; simpl.
  - reflexivity.
  - apply IH.
  - f_equal. lia.
  - by rewrite IH12.
Qed.

Lemma fold_Z_max_Permutation (l l' : list Z) (a : Z) :
  Permutation l l' -> fold_left Z.max l a = fold_left Z.max l' a.
Proof.
  intros Hp. revert a.
  induction Hp as [|x l l' Hp IH|x y l|l1 l2 l3 H12 IH12 H23 IH23]; intros a; simpl.
  - reflexivity.
  - apply IH.
  - f_equal. lia.
  - by rewrite IH12.
Qed.

(** [Math.min] keeps the argument with the least key. *)
Lemma Math_min_from_zkey (l : list float) (lowest : float) :
  not_nan lowest -> Forall not_nan l ->
  not_nan (JS.Math_min_from lowest l) /\
  zkey (JS.Math_min_from lowest l) = fold_left Z.min (List.map zkey l) (zkey lowest).
Proof.
  intros Hlo Hl. revert lowest Hlo.
  induction Hl as [|x l Hx Hl IH]; intros lowest Hlo; simpl; [by split|].
  unfold JS.isNaN. rewrite Hx.
  set (step := if x <? (if (JS.is_neg_zero x && JS.is_pos_zero lowest)%bool
                        then PrimFloat.neg_zero else lowest)
               then x
               else if (JS.is_neg_zero x && JS.is_pos_zero lowest)%bool
                    then PrimFloat.neg_zero else lowest).
  assert (Hstep : step = if (zkey x <? zkey lowest)%Z then x else lowest).
  { subst step. rewrite zkey_lt by assumption.
    destruct (JS.is_neg_zero x && JS.is_pos_zero lowest)%bool eqn:E; cbn [orb].
    - apply andb_prop in E as [E _]. apply is_neg_zero_eq in E. subst x. reflexivity.
    - reflexivity. }
  assert (Hn : not_nan step) by (rewrite Hstep; by destruct (zkey x <? zkey lowest)%Z).
  destruct (IH step Hn) as [Hr Hk]. split; [exact Hr|].
  rewrite Hk. f_equal. rewrite Hstep.
  destruct (Z.ltb_spec (zkey x) (zkey lowest)); lia.
Qed.

Lemma Math_max_from_zkey (l : list float) (highest : float) :
  not_nan highest -> Forall not_nan l ->
  not_nan (JS.Math_max_from highest l) /\
  zkey (JS.Math_max_from highest l) = fold_left Z.max (List.map zkey l) (zkey highest).
Proof.
  intros Hhi Hl. revert highest Hhi.
  induction Hl as [|x l Hx Hl IH]; intros highest Hhi; simpl; [by split|].
  unfold JS.isNaN. rewrite Hx.
  set (step := if (if (JS.is_pos_zero x && JS.is_neg_zero highest)%bool
                   then PrimFloat.zero else highest) <? x
               then x
               else if (JS.is_pos_zero x && JS.is_neg_zero highest)%bool
                    then PrimFloat.zero else highest).
  assert (Hstep : step = if (zkey highest <? zkey x)%Z then x else highest).
  { subst step. rewrite zkey_lt by assumption. rewrite (andb_comm (JS.is_neg_zero highest)).
    destruct (JS.is_pos_zero x && JS.is_neg_zero highest)%bool eqn:E; cbn [orb].
    - apply andb_prop in E as [E _]. apply is_pos_zero_eq in E. subst x. reflexivity.
    - reflexivity. }
  assert (Hn : not_nan step) by (rewrite Hstep; by destruct (zkey highest <? zkey x)%Z).
  destruct (IH step Hn) as [Hr Hk]. split; [exact Hr|].
  rewrite Hk. f_equal. rewrite Hstep.
  destruct (Z.ltb_spec (zkey highest) (zkey x)); lia.
Qed.

Lemma Math_min_Permutation (l l' : list float) :
  Forall not_nan l -> Permutation l l' -> JS.Math_min l = JS.Math_min l'.
Proof.
  intros Hl Hp. assert (Hl' : Forall not_nan l') by (by rewrite <- Hp).
  destruct (Math_min_from_zkey l PrimFloat.infinity eq_refl Hl) as [Hn Hk].
  destruct (Math_min_from_zkey l' PrimFloat.infinity eq_refl Hl') as [Hn' Hk'].
  apply zkey_inj; [assumption..|]. unfold JS.Math_min. rewrite Hk, Hk'.
  apply fold_Z_min_Permutation. by apply Permutation_map.
Qed.

Lemma Math_max_Permutation (l l' : list float) :
  Forall not_nan l -> Permutation l l' -> JS.Math_max l = JS.Math_max l'.
Proof.
  intros Hl Hp. assert (Hl' : Forall not_nan l') by (by rewrite <- Hp).
  destruct (Math_max_from_zkey l PrimFloat.neg_infinity eq_refl Hl) as [Hn Hk].
  destruct (Math_max_from_zkey l' PrimFloat.neg_infinity eq_refl Hl') as [Hn' Hk'].
  apply zkey_inj; [assumption..|]. unfold JS.Math_max. rewrite Hk, Hk'.
  apply fold_Z_max_Permutation. by apply Permutation_map.
Qed.

(** Two arrays that agree up to the signs of their zeros have the same
    sum, when the sum does not start from [-0]. *)
Lemma fold_add_exact {A} (f f' : A -> float) (l l' : list A) (acc : float)
    (R : A -> A -> Prop) :
  (forall x x', R x x' -> same_value_zero (f x) (f' x')) ->
  acc <> PrimFloat.neg_zero -> Forall2 R l l' ->
  fold_left (fun a b => a + f b) l acc = fold_left (fun a b => a + f' b) l' acc.
Proof.
  intros Hf Hacc Hl. revert acc Hacc.
  induction Hl as [|x x' l l' Hx Hl IH]; intros acc Hacc; simpl; [reflexivity|].
  destruct (Hf x x' Hx) as [<-|[Hz Hz']].
  - apply IH. by apply add_not_neg_zero.
  - rewrite !add_zero_r by assumption. by apply IH.
Qed.


End ArrayFacts.

(** ** The statistics engine: structure of the result *)

Module StatisticsFacts.

Import Float64 Float64Facts ArrayFacts Server Spec.

Local Open Scope float_scope.

Section WithPow.

Variable Math_pow : float -> float -> float.

Lemma fold_visit_lookup (data : list JS.object) (fields : list Field)
    (stats : gmap string Summary) (key : string) :
  fold_left (visit_field Math_pow data) fields stats !! key =
  if existsb (is_number_field key) fields
     && (0 <? length (field_values data key))%nat
  then Some (summarize Math_pow (field_values data key))
  else stats !! key.
Proof.
  revert stats. induction fields as [|f fields IH]; intros stats; simpl.
  - reflexivity.
  - rewrite IH. unfold visit_field, is_number_field at 2.
    destruct (existsb (is_number_field key) fields) eqn:Hex; simpl.
    + rewrite orb_true_r. simpl.
      destruct (0 <? length (field_values data key))%nat eqn:Hlen; [reflexivity|].
      destruct (type f); try reflexivity.
      destruct (0 <? length (field_values data (name f)))%nat eqn:Hf; [|reflexivity].
      rewrite lookup_insert_ne; [reflexivity|]. intros <-. congruence.
    + rewrite orb_false_r.
      destruct (type f) eqn:Hty; simpl; try reflexivity.
      destruct (decide (name f = key)) as [->|Hne].
      * rewrite bool_decide_eq_true_2 by reflexivity. simpl.
        destruct (0 <? length (field_values data key))%nat; [|reflexivity].
        apply lookup_insert_eq.
      * rewrite bool_decide_eq_false_2 by assumption. simpl.
        destruct (0 <? length (field_values data (name f)))%nat; [|reflexivity].
        by rewrite lookup_insert_ne.
Qed.

(** What [calculateStatistics] maps a key to. *)
Lemma calculateStatistics_lookup (data : list JS.object) (fields : list Field)
    (key : string) :
  calculateStatistics Math_pow data fields !! key =
  if existsb (is_number_field key) fields
     && (0 <? length (field_values data key))%nat
  then Some (summarize Math_pow (field_values data key))
  else None.
Proof.
  unfold calculateStatistics. rewrite fold_visit_lookup.
  by rewrite lookup_empty.
Qed.

Lemma is_number_field_elem (fields : list Field) (field : Field) :
  field ∈ fields → type field = number →
  existsb (is_number_field (name field)) fields = true.
Proof.
  intros Hin Hty. apply existsb_exists. exists field. split.
  - by apply list_elem_of_In.
  - unfold is_number_field. by rewrite !bool_decide_eq_true_2.
Qed.

(** A numeric field with a usable value is reported, with the summary of
    its included values. *)
Lemma calculateStatistics_present (data : list JS.object) (fields : list Field)
    (field : Field) :
  field ∈ fields → type field = number →
  field_values data (name field) ≠ [] →
  calculateStatistics Math_pow data fields !! name field =
  Some (summarize Math_pow (field_values data (name field))).
Proof.
  intros Hin Hty Hne. rewrite calculateStatistics_lookup.
  rewrite is_number_field_elem by assumption.
  destruct (field_values data (name field)); [done|reflexivity].
Qed.

Lemma field_values_app (d1 d2 : list JS.object) (key : string) :
  field_values (d1 ++ d2) key = field_values d1 key ++ field_values d2 key.
Proof. unfold field_values. by rewrite List.map_app, List.filter_app. Qed.

Lemma field_values_cons (item : JS.object) (d : list JS.object) (key : string) :
  field_values (item :: d) key =
  if usable key item
  then JS.parseFloat (JS.get item key) :: field_values d key
  else field_values d key.
Proof. reflexivity. Qed.

Lemma length_field_values (data : list JS.object) (key : string) :
  length (field_values data key) = length (List.filter (usable key) data).
Proof.
  induction data as [|item data IH]; [reflexivity|].
  rewrite field_values_cons. simpl.
  destruct (usable key item); simpl; congruence.
Qed.

Lemma missing_or_non_numeric_unusable (item : JS.object) (key : string) :
  missing_or_non_numeric item key → usable key item = false.
Proof.
  unfold usable, JS.get.
  intros [-> | (s & -> & Hs)]; [reflexivity|].
  simpl. unfold JS.parseFloat_string. by rewrite Hs.
Qed.

Lemma field_values_not_nan (data : list JS.object) (key : string) :
  Forall not_nan (field_values data key).
Proof.
  unfold field_values. apply Forall_forall. intros x Hx.
  apply list_elem_of_In, filter_In in Hx as [_ Hx].
  unfold not_nan. unfold JS.isNaN in Hx. by destruct (PrimFloat.is_nan x).
Qed.


Lemma field_values_Permutation (data1 data2 : list JS.object) (key : string) :
  Permutation data1 data2 ->
  Permutation (field_values data1 key) (field_values data2 key).
Proof.
  induction 1 as [|item d1 d2 Hp IH|a b d|d1 d2 d3 H12 IH12 H23 IH23].
  - reflexivity.
  - rewrite !field_values_cons. destruct (usable key item); [by constructor|assumption].
  - rewrite !field_values_cons.
    destruct (usable key a), (usable key b); try reflexivity. apply perm_swap.
  - by etransitivity.
Qed.

(** A summary that is reported is the summary of a non-empty array of
    included values. *)
Lemma calculateStatistics_Some (data : list JS.object) (fields : list Field)
    (key : string) (s : Summary) :
  calculateStatistics Math_pow data fields !! key = Some s ->
  field_values data key <> [] /\ s = summarize Math_pow (field_values data key).
Proof.
  rewrite calculateStatistics_lookup.
  destruct (existsb (is_number_field key) fields); simpl; [|discriminate].
  destruct (field_values data key); simpl; [discriminate|].
  intros [= <-]. split; [discriminate|reflexivity].
Qed.

Lemma at_index_lookup (l : list float) (i : nat) :
  (i < length l)%nat -> l !! i = Some (at_index l i).
Proof.
  intros Hi. unfold at_index. rewrite nth_lookup.
  destruct (lookup_lt_is_Some_2 l i Hi) as [x ->]. reflexivity.
Qed.

Lemma pow_same (x x' : float) :
  pow_ignores_zero_sign Math_pow -> same_value_zero x x' ->
  Math_pow x 2 = Math_pow x' 2.
Proof.
  intros Hpow [->|[Hx Hx']]; [reflexivity|].
  apply is_zero_cases in Hx, Hx'. unfold pow_ignores_zero_sign in Hpow.
  destruct Hx as [-> | ->], Hx' as [-> | ->]; congruence.
Qed.

(** The summary of an array of numbers does not depend on the order of the
    array, except for the sign of a zero median. *)
Lemma summarize_Permutation (l1 l2 : list float) :
  pow_ignores_zero_sign Math_pow ->
  Forall not_nan l1 -> Permutation l1 l2 ->
  same_summary (summarize Math_pow l1) (summarize Math_pow l2).
Proof.
  intros Hpow Hn Hp.
  pose proof (Array_sort_Permutation_same l1 l2 Hn Hp) as Hs.
  pose proof (Forall2_length _ _ _ Hs) as Hlen.
  pose proof (Array_sort_not_nan l1 Hn) as Hn1.
  assert (Hp' : Permutation (JS.Array_sort ascending l1) (JS.Array_sort ascending l2)).
  { by rewrite !Array_sort_Permutation. }
  unfold summarize, same_summary. cbn [count mean median min max standardDeviation variance].
  set (s1 := JS.Array_sort ascending l1) in *.
  set (s2 := JS.Array_sort ascending l2) in *.
  rewrite <- Hlen.
  assert (Hsum : sum s1 = sum s2).
  { unfold sum.
    apply (fold_add_exact (fun b => b) (fun b => b) s1 s2 0 same_value_zero);
      [auto|apply zero_not_neg_zero|assumption]. }
  rewrite <- Hsum.
  assert (Hvar :
    fold_left (fun a b => a + Math_pow (b - sum s1 / JS.Number_of_nat (length s1)) 2) s1 0 =
    fold_left (fun a b => a + Math_pow (b - sum s1 / JS.Number_of_nat (length s1)) 2) s2 0).
  { apply (fold_add_exact _ _ s1 s2 0 same_value_zero);
      [|apply zero_not_neg_zero|assumption].
    intros x x' Hx. left. apply pow_same; [assumption|].
    apply sub_same_value_zero; [assumption|reflexivity]. }
  rewrite <- Hvar.
  split; [reflexivity|]. split; [reflexivity|].
  split; [by apply getMedian_same|].
  split; [by apply Math_min_Permutation|].
  split; [by apply Math_max_Permutation|].
  split; reflexivity.
Qed.

(** ** The statistics engine: the properties of the specification *)

(** C1.  For every numeric field with at least one usable value, the
    reported variance is the population variance of the included values:
    the mean of the squared deviations from their arithmetic mean, so the
    sum of squares is divided by the count [n].  The included values are
    added up in ascending order, the order the sort leaves them in. *)
Theorem variance_is_population_variance (data : list JS.object)
    (fields : list Field) (field : Field) :
  field ∈ fields -> type field = number ->
  field_values data (name field) <> [] ->
  exists s,
    calculateStatistics Math_pow data fields !! name field = Some s /\
    count s = length (sorted_values data (name field)) /\
    variance s = population_variance Math_pow (sorted_values data (name field)) /\
    variance s =
      sum (List.map
             (fun x => Math_pow (x - arithmetic_mean (sorted_values data (name field))) 2)
             (sorted_values data (name field)))
      / JS.Number_of_nat (count s).
Proof.
  intros Hin Hty Hne.
  rewrite calculateStatistics_present by assumption.
  eexists. split; [reflexivity|].
  unfold summarize, population_variance, arithmetic_mean, sorted_values, sum.
  cbn [count variance].
  rewrite fold_left_add_map, length_map. auto.
Qed.

(** C2.  For every numeric field with usable values, the median is taken
    from the included values sorted ascending: the element at index
    [n / 2] when the count [n] is odd, the mean of the elements at indices
    [n / 2 - 1] and [n / 2] when it is even; the values 1, 2, 3, 4 give
    2.5. *)
Theorem median_of_sorted_values :
  (forall (data : list JS.object) (fields : list Field) (field : Field),
     field ∈ fields -> type field = number ->
     field_values data (name field) <> [] ->
     exists s,
       calculateStatistics Math_pow data fields !! name field = Some s /\
       let sorted := sorted_values data (name field) in
       let n := length sorted in
       Permutation sorted (field_values data (name field)) /\
       StronglySorted le sorted /\
       count s = n /\
       ((n mod 2 = 1)%nat -> sorted !! (n / 2)%nat = Some (median s)) /\
       ((n mod 2 = 0)%nat ->
        exists a b, sorted !! (n / 2 - 1)%nat = Some a /\
                    sorted !! (n / 2)%nat = Some b /\
                    median s = (a + b) / 2)) /\
  median <$> (calculateStatistics Math_pow ages_1_to_4 [age] !! "age") = Some 2.5.
Proof.
  split.
  - intros data fields field Hin Hty Hne.
    rewrite calculateStatistics_present by assumption.
    eexists. split; [reflexivity|].
    cbn zeta. unfold summarize. cbn [count median].
    fold (sorted_values data (name field)).
    assert (Hlen : length (sorted_values data (name field)) <> 0%nat).
    { unfold sorted_values. rewrite length_Array_sort.
      destruct (field_values data (name field)); [done|discriminate]. }
    set (sorted := sorted_values data (name field)) in *.
    split; [apply Array_sort_Permutation|].
    split; [apply Array_sort_ascending, field_values_not_nan|].
    split; [reflexivity|]. unfold getMedian. split.
    + intros Hodd. rewrite Hodd. simpl negb. cbv iota.
      apply at_index_lookup. apply Nat.div_lt; lia.
    + intros Heven. rewrite Heven. simpl negb. cbv iota.
      exists (at_index sorted (length sorted / 2 - 1)), (at_index sorted (length sorted / 2)).
      assert (length sorted / 2 < length sorted)%nat by (apply Nat.div_lt; lia).
      split; [apply at_index_lookup; lia|].
      split; [apply at_index_lookup; lia|reflexivity].
  - rewrite (calculateStatistics_present _ _ age);
      [|by constructor|reflexivity|by vm_compute].
    reflexivity.
Qed.

(** C3, as the code has it.  A record whose value for a field is missing,
    or is a string that does not begin with a decimal literal, is left out:
    the result for that field is the result for the record set without the
    record.  The computation is a total function, so the record cannot make
    it fail. *)
Theorem unusable_record_excluded (d1 d2 : list JS.object) (r : JS.object)
    (fields : list Field) (key : string) :
  missing_or_non_numeric r key ->
  calculateStatistics Math_pow (d1 ++ r :: d2) fields !! key =
  calculateStatistics Math_pow (d1 ++ d2) fields !! key.
Proof.
  intros Hr. rewrite !calculateStatistics_lookup.
  rewrite !field_values_app, field_values_cons.
  by rewrite (missing_or_non_numeric_unusable r key Hr).
Qed.

(** C4.  A field for which no record supplies a usable value is absent
    from the result; so a schema without numeric fields, or an empty record
    set, gives the empty mapping. *)
Theorem field_without_values_omitted :
  (forall (data : list JS.object) (fields : list Field) (key : string),
     field_values data key = [] ->
     calculateStatistics Math_pow data fields !! key = None) /\
  (forall (data : list JS.object) (fields : list Field),
     Forall (fun field => type field <> number) fields ->
     calculateStatistics Math_pow data fields = ∅) /\
  (forall fields : list Field, calculateStatistics Math_pow [] fields = ∅).
Proof.
  split; [|split].
  - intros data fields key Hv. rewrite calculateStatistics_lookup, Hv.
    by rewrite andb_false_r.
  - intros data fields Hf. apply map_eq. intros key.
    rewrite calculateStatistics_lookup, lookup_empty.
    replace (existsb (is_number_field key) fields) with false; [reflexivity|].
    symmetry. apply not_true_is_false. intros Hex.
    apply existsb_exists in Hex as (f & Hin & Hf').
    rewrite Forall_forall in Hf. apply list_elem_of_In in Hin.
    apply (Hf f Hin). unfold is_number_field in Hf'.
    apply andb_prop in Hf' as [Hf' _]. by apply bool_decide_eq_true_1 in Hf'.
  - intros fields. apply map_eq. intros key.
    rewrite calculateStatistics_lookup, lookup_empty.
    by rewrite andb_false_r.
Qed.

(** C10.  A record's value is included exactly when [parseFloat] of it is
    not [NaN]: the count of a numeric field is the number of such records,
    and such a record contributes the number [parseFloat] reads.  So
    ["12abc"] contributes 12 and ["Infinity"] contributes [+Infinity]. *)
Theorem included_iff_parseFloat_not_NaN :
  (forall (data : list JS.object) (fields : list Field) (field : Field),
     field ∈ fields -> type field = number ->
     count_of (calculateStatistics Math_pow data fields) (name field) =
     length (List.filter (usable (name field)) data)) /\
  (forall (d1 d2 : list JS.object) (r : JS.object) (key : string),
     field_values (d1 ++ r :: d2) key =
     if JS.isNaN (JS.parseFloat (JS.get r key))
     then field_values d1 key ++ field_values d2 key
     else field_values d1 key ++ JS.parseFloat (JS.get r key) :: field_values d2 key) /\
  (let s := calculateStatistics Math_pow [aged (JS.Str "12abc")] [age] !! "age" in
   count <$> s = Some 1%nat /\ mean <$> s = Some 12 /\ median <$> s = Some 12 /\
   min <$> s = Some 12 /\ max <$> s = Some 12) /\
  (let s := calculateStatistics Math_pow [aged (JS.Str "Infinity")] [age] !! "age" in
   count <$> s = Some 1%nat /\ mean <$> s = Some PrimFloat.infinity /\
   median <$> s = Some PrimFloat.infinity /\
   min <$> s = Some PrimFloat.infinity /\ max <$> s = Some PrimFloat.infinity).
Proof.
  split; [|split; [|split]].
  - intros data fields field Hin Hty. unfold count_of.
    rewrite calculateStatistics_lookup, is_number_field_elem by assumption.
    rewrite <- length_field_values. cbn [andb].
    destruct (0 <? length (field_values data (name field)))%nat eqn:E.
    + unfold summarize. cbn [count]. apply length_Array_sort.
    + apply Nat.ltb_ge in E. lia.
  - intros d1 d2 r key. rewrite field_values_app, field_values_cons.
    unfold usable. by destruct (JS.isNaN _).
  - rewrite (calculateStatistics_present _ _ age);
      [|by constructor|reflexivity|by vm_compute].
    repeat split; reflexivity.
  - rewrite (calculateStatistics_present _ _ age);
      [|by constructor|reflexivity|by vm_compute].
    repeat split; reflexivity.
Qed.


(** C9, as the code has it.  For every record sequence and every
    permutation of it, the result has the same keys and, for each key, the
    same count, mean, min, max, variance and standard deviation; the two
    medians are the same number up to the sign of a zero.  [Math.pow] is
    any function that gives [-0] and [+0] the same square. *)
Theorem statistics_order_independent (data1 data2 : list JS.object)
    (fields : list Field) :
  pow_ignores_zero_sign Math_pow ->
  Permutation data1 data2 ->
  same_statistics (calculateStatistics Math_pow data1 fields)
                  (calculateStatistics Math_pow data2 fields).
Proof.
  intros Hpow Hp key. rewrite !calculateStatistics_lookup.
  pose proof (field_values_Permutation data1 data2 key Hp) as Hv.
  rewrite <- (Permutation_length Hv).
  destruct (existsb (is_number_field key) fields && _); constructor.
  apply summarize_Permutation; [assumption|apply field_values_not_nan|assumption].
Qed.

End WithPow.

End StatisticsFacts.

Module StatisticsExamples.

Import Float64 Float64Facts ArrayFacts Server Spec StatisticsFacts.

Local Open Scope float_scope.

(** ** The statistics engine on concrete record sets *)

(** Scenario 1: ages 10, 20, 30. *)
Example scenario_ages_10_20_30 :
  calculateStatistics square_pow ages_10_20_30 [age] !! "age" =
  Some {| count := 3; mean := 20; median := 20; min := 10; max := 30;
          standardDeviation := PrimFloat.sqrt (200 / 3); variance := 200 / 3 |}.
Proof. vm_compute. reflexivity. Qed.

(** The divisor is [n], not [n - 1]: the sample variance of 10, 20, 30
    would be 100. *)
Example population_not_sample_variance :
  population_variance square_pow [10; 20; 30] = 200 / 3 /\
  sample_variance square_pow [10; 20; 30] = 100.
Proof. split; vm_compute; reflexivity. Qed.

(** Scenario 2: the record with ["oops"] is left out. *)
Example scenario_oops :
  calculateStatistics square_pow
    [aged (JS.Num 5); aged (JS.Str "oops"); aged (JS.Num 15)] [age] !! "age" =
  Some {| count := 2; mean := 10; median := 10; min := 5; max := 15;
          standardDeviation := 5; variance := 25 |}.
Proof. vm_compute. reflexivity. Qed.

Example parseFloat_tenth : JS.parseFloat_string "0.1" = tenth.
Proof. vm_compute. reflexivity. Qed.

(** C3, as stated, fails.  The string ["12abc"] is not the text of a
    number, yet the record that holds it is counted, with the value 12 of
    its prefix. *)
Lemma string_with_numeric_prefix_included :
  ~ numeric_string "12abc" /\
  calculateStatistics square_pow [aged (JS.Str "12abc")] [age] !! "age" <>
  calculateStatistics square_pow [] [age] !! "age" /\
  (let s := calculateStatistics square_pow
              [aged (JS.Num 5); aged (JS.Str "12abc")] [age] !! "age" in
   count <$> s = Some 2%nat /\ mean <$> s = Some 8.5).
Proof.
  split; [|split].
  - intros (lit & rest & Hlit & Hrest). vm_compute in Hlit.
    injection Hlit as <- <-. discriminate.
  - vm_compute. discriminate.
  - split; vm_compute; reflexivity.
Qed.


(** C9, as stated, fails.  The records ["0"], ["-0"], ["-0"] and the same
    records with the first two swapped compare as equal under the
    comparator, so the stable sort keeps each order, and the median, the
    middle element, is [-0] for one order and [+0] for the other. *)
Lemma order_changes_sign_of_zero_median :
  Permutation zeros_a zeros_b /\
  median <$> (calculateStatistics square_pow zeros_a [age] !! "age")
    = Some PrimFloat.neg_zero /\
  median <$> (calculateStatistics square_pow zeros_b [age] !! "age")
    = Some PrimFloat.zero /\
  calculateStatistics square_pow zeros_a [age] <>
  calculateStatistics square_pow zeros_b [age].
Proof.
  assert (Ha : median <$> (calculateStatistics square_pow zeros_a [age] !! "age")
               = Some PrimFloat.neg_zero) by (vm_compute; reflexivity).
  assert (Hb : median <$> (calculateStatistics square_pow zeros_b [age] !! "age")
               = Some PrimFloat.zero) by (vm_compute; reflexivity).
  split; [apply perm_swap|]. split; [exact Ha|]. split; [exact Hb|].
  intros Heq. rewrite Heq, Hb in Ha.
  apply zero_not_neg_zero.
  exact (f_equal (fun o => match o with Some x => x | None => PrimFloat.zero end) Ha).
Qed.

(** *** The properties at concrete inputs *)

Lemma variance_is_population_variance_witness :
  exists s,
    calculateStatistics square_pow ages_10_20_30 [age] !! name age = Some s /\
    count s = length (sorted_values ages_10_20_30 (name age)) /\
    variance s = population_variance square_pow (sorted_values ages_10_20_30 (name age)) /\
    variance s =
      sum (List.map
             (fun x => square_pow (x - arithmetic_mean (sorted_values ages_10_20_30 (name age))) 2)
             (sorted_values ages_10_20_30 (name age)))
      / JS.Number_of_nat (count s).
Proof.
  apply (variance_is_population_variance square_pow ages_10_20_30 [age] age).
  - constructor.
  - reflexivity.
  - vm_compute. discriminate.
Defined.

Lemma median_of_sorted_values_witness :
  exists s,
    calculateStatistics square_pow ages_1_to_4 [age] !! name age = Some s /\
    let sorted := sorted_values ages_1_to_4 (name age) in
    let n := length sorted in
    Permutation sorted (field_values ages_1_to_4 (name age)) /\
    StronglySorted le sorted /\
    count s = n /\
    ((n mod 2 = 1)%nat -> sorted !! (n / 2)%nat = Some (median s)) /\
    ((n mod 2 = 0)%nat ->
     exists a b, sorted !! (n / 2 - 1)%nat = Some a /\
                 sorted !! (n / 2)%nat = Some b /\
                 median s = (a + b) / 2).
Proof.
  apply (proj1 (median_of_sorted_values square_pow) ages_1_to_4 [age] age).
  - constructor.
  - reflexivity.
  - vm_compute. discriminate.
Defined.

Lemma unusable_record_excluded_witness :
  missing_or_non_numeric (aged (JS.Str "oops")) "age" /\
  calculateStatistics square_pow
    ([aged (JS.Num 5)] ++ aged (JS.Str "oops") :: [aged (JS.Num 15)]) [age] !! "age" =
  calculateStatistics square_pow ([aged (JS.Num 5)] ++ [aged (JS.Num 15)]) [age] !! "age".
Proof.
  assert (H : missing_or_non_numeric (aged (JS.Str "oops")) "age").
  { right. exists "oops"%string. split; vm_compute; reflexivity. }
  split; [exact H|].
  apply (unusable_record_excluded square_pow _ _ _ _ _ H).
Defined.

Lemma field_without_values_omitted_witness :
  calculateStatistics square_pow [aged (JS.Str "oops")] [age] !! "age" = None /\
  calculateStatistics square_pow ages_10_20_30 [rank; first_name] = ∅.
Proof.
  split.
  - apply (proj1 (field_without_values_omitted square_pow)). vm_compute. reflexivity.
  - apply (proj1 (proj2 (field_without_values_omitted square_pow))).
    repeat constructor; discriminate.
Defined.

Lemma included_iff_parseFloat_not_NaN_witness :
  count_of (calculateStatistics square_pow
              [aged (JS.Num 5); aged (JS.Str "oops"); aged (JS.Str "12abc")] [age])
           (name age) =
  length (List.filter (usable (name age))
            [aged (JS.Num 5); aged (JS.Str "oops"); aged (JS.Str "12abc")]).
Proof.
  apply (proj1 (included_iff_parseFloat_not_NaN square_pow)).
  - constructor.
  - reflexivity.
Defined.


Lemma statistics_order_independent_witness :
  same_statistics (calculateStatistics square_pow zeros_a [age])
                  (calculateStatistics square_pow zeros_b [age]).
Proof.
  apply (statistics_order_independent square_pow zeros_a zeros_b [age]).
  - reflexivity.
  - apply perm_swap.
Defined.

End StatisticsExamples.

(** ** The entry form *)

Module DataEntryFacts.

Import Server DataEntry Spec.

Lemma validate_required_None (fields : list Field) (formData : JS.object) :
  validate_required fields formData = None <->
  Forall (fun field => fails_required formData field = false) fields.
Proof.
  induction fields as [|f fields IH]; simpl.
  - split; [constructor|reflexivity].
  - destruct (fails_required formData f) eqn:Hf.
    + split; [discriminate|]. inversion 1. congruence.
    + rewrite IH. split; [by constructor|by inversion 1].
Qed.

Lemma validate_required_Some (fields : list Field) (formData : JS.object)
    (message : string) :
  validate_required fields formData = Some message <->
  exists before first after,
    fields = before ++ first :: after /\
    Forall (fun field => fails_required formData field = false) before /\
    fails_required formData first = true /\
    message = required_message first.
Proof.
  induction fields as [|f fields IH]; simpl.
  - split; [discriminate|]. intros (before & first & after & H & _).
    by destruct before.
  - destruct (fails_required formData f) eqn:Hf.
    + split.
      * intros [= <-]. exists [], f, fields. repeat split; [constructor|assumption].
      * intros (before & first & after & H & Hb & Hfirst & ->).
        destruct before as [|b before]; simpl in H.
        -- by injection H as -> _.
        -- injection H as -> _. inversion Hb. congruence.
    + rewrite IH. split.
      * intros (before & first & after & -> & Hb & Hfirst & ->).
        exists (f :: before), first, after. repeat split; [by constructor|assumption].
      * intros (before & first & after & H & Hb & Hfirst & ->).
        destruct before as [|b before]; simpl in H.
        -- injection H as -> _. congruence.
        -- injection H as -> ->. inversion_clear Hb.
           exists before, first, after. repeat split; assumption.
Qed.

Lemma submit_all_pass (schema_id : Z) (fields : list Field) (formData : JS.object) :
  Forall (fun field => fails_required formData field = false) fields ->
  handleSubmit schema_id fields formData = Posted schema_id formData.
Proof.
  intros Hall. unfold handleSubmit.
  apply validate_required_None in Hall. by rewrite Hall.
Qed.

(** C5, as the code has it.  The check on submit is all-or-nothing, and it
    stops at the first failure: when no required field is empty the form
    data is posted as it is; when some required field is empty nothing is
    posted, and the alert names the first such field, in schema order, and
    no other. *)
Theorem submit_reports_first_missing_field (schema_id : Z)
    (fields : list Field) (formData : JS.object) :
  (Forall (fun field => fails_required formData field = false) fields ->
   handleSubmit schema_id fields formData = Posted schema_id formData) /\
  (forall field, field ∈ fields -> fails_required formData field = true ->
   exists before first after,
     fields = before ++ first :: after /\
     Forall (fun f => fails_required formData f = false) before /\
     fails_required formData first = true /\
     handleSubmit schema_id fields formData = Alerted (required_message first)).
Proof.
  split; [apply submit_all_pass|].
  intros field Hin Hfail. unfold handleSubmit.
  destruct (validate_required fields formData) as [message|] eqn:Hv.
  - apply validate_required_Some in Hv as (before & first & after & H1 & H2 & H3 & ->).
    exists before, first, after. auto.
  - apply validate_required_None in Hv. rewrite Forall_forall in Hv.
    specialize (Hv field Hin). congruence.
Qed.

(** C5, as stated, fails: with two required fields both empty, the caller
    is told about the first only. *)
Lemma second_missing_field_not_reported :
  fails_required ∅ first_name = true /\
  fails_required ∅ last_name = true /\
  handleSubmit 1 [first_name; last_name] ∅ = Alerted "first is required" /\
  ~ reports (handleSubmit 1 [first_name; last_name] ∅) last_name.
Proof.
  split; [reflexivity|]. split; [reflexivity|]. split; [reflexivity|].
  unfold reports. vm_compute. discriminate.
Qed.

Lemma submit_reports_first_missing_field_witness :
  handleSubmit 1 [first_name; last_name]
    {[ "first" := JS.Str "Ada"; "last" := JS.Str "Lovelace" ]} =
    Posted 1 {[ "first" := JS.Str "Ada"; "last" := JS.Str "Lovelace" ]} /\
  exists before first after,
    [first_name; last_name] = before ++ first :: after /\
    Forall (fun f => fails_required ∅ f = false) before /\
    fails_required ∅ first = true /\
    handleSubmit 1 [first_name; last_name] ∅ = Alerted (required_message first).
Proof.
  split.
  - apply (proj1 (submit_reports_first_missing_field 1 [first_name; last_name] _)).
    repeat constructor.
  - apply (proj2 (submit_reports_first_missing_field 1 [first_name; last_name] ∅)
             last_name).
    + repeat constructor.
    + reflexivity.
Defined.

Lemma supplied_passes (formData : JS.object) (field : Field) :
  supplied formData field -> fails_required formData field = false.
Proof.
  intros (s & Hs & Hne). unfold fails_required. rewrite Hs. simpl.
  destruct (String.eqb_spec s ""); [done|]. apply andb_false_r.
Qed.

(** C6, as the code has it.  No check on submit consults the options of a
    select field: a submission in which every select field holds a
    non-empty string, among its options or not, and every other field
    passes the required check, is posted as it is; and the route stores
    whatever is posted. *)
Theorem select_value_not_checked_against_options (schema_id : Z)
    (fields : list Field) (formData : JS.object) (entries : list Entry) :
  (forall field, field ∈ fields -> type field = select -> supplied formData field) ->
  (forall field, field ∈ fields -> type field <> select ->
                 fails_required formData field = false) ->
  handleSubmit schema_id fields formData = Posted schema_id formData /\
  post_entries entries schema_id formData =
    entries ++ [{| schemaId := schema_id; data := formData |}].
Proof.
  intros Hsel Hother. split; [|reflexivity].
  apply submit_all_pass. apply Forall_forall. intros field Hin.
  destruct (decide (type field = select)) as [Hty|Hty].
  - apply supplied_passes. by apply Hsel.
  - by apply Hother.
Qed.

(** C6, as stated, fails: the value ["medium"] is not among the options
    [low, high] of the field, yet the submission is posted and stored. *)
Lemma value_outside_options_accepted :
  ~ among_options (JS.Str "medium") rank /\
  handleSubmit 1 [rank] {[ "rank" := JS.Str "medium" ]} =
    Posted 1 {[ "rank" := JS.Str "medium" ]} /\
  post_entries [] 1 {[ "rank" := JS.Str "medium" ]} =
    [{| schemaId := 1; data := {[ "rank" := JS.Str "medium" ]} |}].
Proof.
  split; [|split; reflexivity].
  intros (s & opts & Hs & Hopts & Hin).
  injection Hs as <-. injection Hopts as <-.
  apply list_elem_of_In in Hin. simpl in Hin.
  destruct Hin as [H|[H|[]]]; discriminate.
Qed.

Lemma select_value_not_checked_against_options_witness :
  handleSubmit 1 [rank] {[ "rank" := JS.Str "medium" ]} =
    Posted 1 {[ "rank" := JS.Str "medium" ]} /\
  post_entries [] 1 {[ "rank" := JS.Str "medium" ]} =
    [] ++ [{| schemaId := 1; data := {[ "rank" := JS.Str "medium" ]} |}].
Proof.
  apply (select_value_not_checked_against_options 1 [rank]
           {[ "rank" := JS.Str "medium" ]} []).
  - intros field Hin _. apply list_elem_of_singleton in Hin. subst field.
    exists "medium"%string. split; [reflexivity|discriminate].
  - intros field Hin Hty. apply list_elem_of_singleton in Hin. subst field.
    contradiction Hty. reflexivity.
Defined.

(** C7: the number 0 in a required field.  Typing [0] into the number
    input of a required field stores the empty string, and the submission
    is refused as if the field were empty; form data that holds the number
    [0] itself is refused too. *)
Lemma required_zero_is_rejected :
  onChange score ∅ "0" = {[ "score" := JS.Str "" ]} /\
  handleSubmit 1 [score] (onChange score ∅ "0") = Alerted "score is required" /\
  handleSubmit 1 [score] {[ "score" := JS.Num 0 ]} = Alerted "score is required" /\
  handleSubmit 1 [score] (onChange score ∅ "7") =
    Posted 1 {[ "score" := JS.Num 7 ]} /\
  handleSubmit 1 [score] ∅ = Alerted "score is required".
Proof. repeat split; vm_compute; reflexivity. Qed.

End DataEntryFacts.

(** ** The statistics engine: what is reported, and from what *)

Module StatisticsMore.

Import Float64 Float64Facts ArrayFacts Server Spec Terms StatisticsFacts.

Local Open Scope float_scope.

(** *** [Math.min] and [Math.max] return one of their arguments *)

Lemma fval_le_infinity (x : float) : not_nan x -> (fval x <= 2 ^ 2100)%Z.
Proof.
  intros Hx. destruct (number_SF x Hx) as [Hn Hv]. unfold fval.
  assert (Hp : (0 < 2 ^ 2100)%Z) by (apply Z.pow_pos_nonneg; lia).
  destruct (Prim2SF x) as [s|s| |s m e]; cbn [SFval]; try lia.
  - destruct s; cbn [cond_Zopp]; lia.
  - pose proof (finite_val_bounds _ _ _ Hv). destruct s; cbn [cond_Zopp]; lia.
Qed.

Lemma fval_ge_neg_infinity (x : float) : not_nan x -> (- 2 ^ 2100 <= fval x)%Z.
Proof.
  intros Hx. destruct (number_SF x Hx) as [Hn Hv]. unfold fval.
  assert (Hp : (0 < 2 ^ 2100)%Z) by (apply Z.pow_pos_nonneg; lia).
  destruct (Prim2SF x) as [s|s| |s m e]; cbn [SFval]; try lia.
  - destruct s; cbn [cond_Zopp]; lia.
  - pose proof (finite_val_bounds _ _ _ Hv). destruct s; cbn [cond_Zopp]; lia.
Qed.

Lemma Math_min_from_elem (l : list float) (lowest : float) :
  Forall not_nan l ->
  JS.Math_min_from lowest l = lowest \/ JS.Math_min_from lowest l ∈ l.
Proof.
  intros Hl. revert lowest. induction Hl as [|x l Hx Hl IH]; intros lowest; simpl.
  - by left.
  - unfold JS.isNaN. rewrite Hx.
    set (lowest1 := if (JS.is_neg_zero x && JS.is_pos_zero lowest)%bool
                    then PrimFloat.neg_zero else lowest).
    assert (H1 : lowest1 = lowest \/ lowest1 = x).
    { subst lowest1. destruct (JS.is_neg_zero x && JS.is_pos_zero lowest)%bool eqn:E;
        [|by left].
      apply andb_prop in E as [E _]. apply is_neg_zero_eq in E. by right. }
    destruct (IH (if x <? lowest1 then x else lowest1)) as [H|H].
    + rewrite H. destruct (x <? lowest1); [right; by left|].
      destruct H1 as [-> | ->]; [by left|right; by left].
    + right. by right.
Qed.

Lemma Math_max_from_elem (l : list float) (highest : float) :
  Forall not_nan l ->
  JS.Math_max_from highest l = highest \/ JS.Math_max_from highest l ∈ l.
Proof.
  intros Hl. revert highest. induction Hl as [|x l Hx Hl IH]; intros highest; simpl.
  - by left.
  - unfold JS.isNaN. rewrite Hx.
    set (highest1 := if (JS.is_pos_zero x && JS.is_neg_zero highest)%bool
                     then PrimFloat.zero else highest).
    assert (H1 : highest1 = highest \/ highest1 = x).
    { subst highest1. destruct (JS.is_pos_zero x && JS.is_neg_zero highest)%bool eqn:E;
        [|by left].
      apply andb_prop in E as [E _]. apply is_pos_zero_eq in E. by right. }
    destruct (IH (if highest1 <? x then x else highest1)) as [H|H].
    + rewrite H. destruct (highest1 <? x); [right; by left|].
      destruct H1 as [-> | ->]; [by left|right; by left].
    + right. by right.
Qed.

Lemma Math_min_elem (l : list float) :
  Forall not_nan l -> l <> [] -> JS.Math_min l ∈ l.
Proof.
  intros Hl Hne. unfold JS.Math_min.
  destruct (Math_min_from_elem l PrimFloat.infinity Hl) as [H|H]; [|exact H].
  destruct l as [|x l]; [done|].
  destruct (Math_min_from_spec (x :: l) PrimFloat.infinity eq_refl Hl) as (_ & _ & Hall).
  inversion_clear Hall as [|? ? Hx _]. inversion_clear Hl as [|? ? Hnx _].
  rewrite H in Hx |- *. unfold val_le in Hx.
  pose proof (fval_le_infinity x Hnx) as Hb.
  change (fval PrimFloat.infinity) with (2 ^ 2100)%Z in Hx.
  assert (Hv : fval x = fval PrimFloat.infinity)
    by (change (fval PrimFloat.infinity) with (2 ^ 2100)%Z; lia).
  destruct (fval_inj x PrimFloat.infinity Hnx eq_refl Hv) as [->|[_ Hz]].
  - by left.
  - vm_compute in Hz. discriminate.
Qed.

Lemma Math_max_elem (l : list float) :
  Forall not_nan l -> l <> [] -> JS.Math_max l ∈ l.
Proof.
  intros Hl Hne. unfold JS.Math_max.
  destruct (Math_max_from_elem l PrimFloat.neg_infinity Hl) as [H|H]; [|exact H].
  destruct l as [|x l]; [done|].
  destruct (Math_max_from_spec (x :: l) PrimFloat.neg_infinity eq_refl Hl) as (_ & _ & Hall).
  inversion_clear Hall as [|? ? Hx _]. inversion_clear Hl as [|? ? Hnx _].
  rewrite H in Hx |- *. unfold val_le in Hx.
  pose proof (fval_ge_neg_infinity x Hnx) as Hb.
  change (fval PrimFloat.neg_infinity) with (- 2 ^ 2100)%Z in Hx.
  assert (Hv : fval x = fval PrimFloat.neg_infinity)
    by (change (fval PrimFloat.neg_infinity) with (- 2 ^ 2100)%Z; lia).
  destruct (fval_inj x PrimFloat.neg_infinity Hnx eq_refl Hv) as [->|[_ Hz]].
  - by left.
  - vm_compute in Hz. discriminate.
Qed.

Section WithPow.

Variable Math_pow : float -> float -> float.

Lemma existsb_numeric_name (fields : list Field) (key : string) :
  existsb (is_number_field key) fields = true <-> numeric_name fields key.
Proof.
  rewrite existsb_exists. unfold numeric_name, is_number_field. split.
  - intros (f & Hin & Hf). apply andb_prop in Hf as [H1 H2].
    apply bool_decide_eq_true_1 in H1, H2. exists f.
    split; [by apply list_elem_of_In|done].
  - intros (f & Hin & Hty & Hname). exists f.
    split; [by apply list_elem_of_In|]. by rewrite !bool_decide_eq_true_2.
Qed.

Lemma field_values_filter (data : list JS.object) (key : string) :
  field_values data key = List.map (parsed key) (List.filter (usable key) data).
Proof.
  induction data as [|item data IH]; [reflexivity|].
  rewrite field_values_cons. cbn [List.filter].
  destruct (usable key item); cbn [List.map]; rewrite IH; reflexivity.
Qed.

Lemma field_values_elem (data : list JS.object) (key : string) (x : float) :
  x ∈ field_values data key <->
  exists item, item ∈ data /\ usable key item = true /\ x = parsed key item.
Proof.
  rewrite field_values_filter, list_elem_of_In, in_map_iff. split.
  - intros (item & <- & Hin). apply filter_In in Hin as [Hin Hu].
    exists item. split; [by apply list_elem_of_In|done].
  - intros (item & Hin & Hu & ->). exists item. split; [reflexivity|].
    apply filter_In. split; [by apply list_elem_of_In|done].
Qed.

(** X1.  A key is reported exactly when the schema has a numeric field of
    that name and some record has a usable value under it: fields of the
    other types are never summarised, whatever their records hold. *)
Theorem reported_iff_numeric_field_with_usable_value (data : list JS.object)
    (fields : list Field) (key : string) :
  is_Some (calculateStatistics Math_pow data fields !! key) <->
  numeric_name fields key /\ exists item, item ∈ data /\ usable key item = true.
Proof.
  rewrite calculateStatistics_lookup, <- existsb_numeric_name.
  destruct (existsb (is_number_field key) fields); cbn [andb].
  - destruct (field_values data key) as [|x l] eqn:Hv; simpl.
    + split; [intros [? ?]; discriminate|].
      intros (_ & item & Hin & Hu).
      assert (parsed key item ∈ field_values data key)
        by (apply field_values_elem; eauto).
      rewrite Hv in H. by apply not_elem_of_nil in H.
    + split; [|eauto]. intros _. split; [reflexivity|].
      assert (Hx : x ∈ field_values data key) by (rewrite Hv; by left).
      apply field_values_elem in Hx as (item & Hin & Hu & _). eauto.
  - split; [intros [? ?]; discriminate|]. intros [? _]. discriminate.
Qed.

(** X2.  The result depends on the schema only through the names of its
    numeric fields: the order of the fields, repeated fields and fields of
    other types make no difference. *)
Theorem fields_matter_by_numeric_names (data : list JS.object)
    (fields1 fields2 : list Field) :
  (forall key, numeric_name fields1 key <-> numeric_name fields2 key) ->
  calculateStatistics Math_pow data fields1 = calculateStatistics Math_pow data fields2.
Proof.
  intros Hnames. apply map_eq. intros key. rewrite !calculateStatistics_lookup.
  replace (existsb (is_number_field key) fields1)
    with (existsb (is_number_field key) fields2); [reflexivity|].
  apply eq_true_iff_eq. rewrite !existsb_numeric_name. symmetry. apply Hnames.
Qed.

(** X3.  The summary of a field reads the records only under that field's
    name: two record sets that agree there, record by record, give the same
    summary, whatever else the records hold. *)
Theorem other_keys_ignored (data1 data2 : list JS.object) (fields : list Field)
    (key : string) :
  Forall2 (fun r1 r2 => r1 !! key = r2 !! key) data1 data2 ->
  calculateStatistics Math_pow data1 fields !! key =
  calculateStatistics Math_pow data2 fields !! key.
Proof.
  intros Hd. rewrite !calculateStatistics_lookup.
  replace (field_values data2 key) with (field_values data1 key); [reflexivity|].
  induction Hd as [|r1 r2 d1 d2 Hr Hd IH]; [reflexivity|].
  rewrite !field_values_cons. unfold usable, JS.get. rewrite Hr, IH. reflexivity.
Qed.

(** X4.  The reported minimum and maximum are attained: each is the value
    [parseFloat] reads from some record with a usable value; so is the
    median when the count is odd. *)
Theorem min_max_attained (data : list JS.object) (fields : list Field)
    (key : string) (s : Summary) :
  calculateStatistics Math_pow data fields !! key = Some s ->
  (exists item, item ∈ data /\ usable key item = true /\ min s = parsed key item) /\
  (exists item, item ∈ data /\ usable key item = true /\ max s = parsed key item) /\
  ((count s mod 2 = 1)%nat ->
   exists item, item ∈ data /\ usable key item = true /\ median s = parsed key item).
Proof.
  intros Hs. apply calculateStatistics_Some in Hs as [Hne ->].
  unfold summarize. cbn [count median min max].
  pose proof (Array_sort_not_nan _ (field_values_not_nan data key)) as Hn.
  pose proof (Array_sort_Permutation ascending (field_values data key)) as Hp.
  set (sorted := JS.Array_sort ascending (field_values data key)) in *.
  assert (Hs : sorted <> []).
  { intros E. rewrite E in Hp. by apply Permutation_nil in Hp. }
  split; [|split].
  - apply field_values_elem. rewrite <- Hp. by apply Math_min_elem.
  - apply field_values_elem. rewrite <- Hp. by apply Math_max_elem.
  - intros Hodd. apply field_values_elem. rewrite <- Hp.
    unfold getMedian. rewrite Hodd. simpl negb. cbv iota.
    apply list_elem_of_lookup. exists (length sorted / 2)%nat.
    apply at_index_lookup. apply Nat.div_lt; [|lia].
    destruct sorted; [done|simpl; lia].
Qed.

(** X5.  When exactly one record has a usable value for a numeric field,
    the count is 1 and the median, the minimum and the maximum all are that
    record's value. *)
Theorem single_usable_record (data : list JS.object) (fields : list Field)
    (key : string) (item : JS.object) :
  numeric_name fields key ->
  List.filter (usable key) data = [item] ->
  exists s, calculateStatistics Math_pow data fields !! key = Some s /\
            count s = 1%nat /\ median s = parsed key item /\
            min s = parsed key item /\ max s = parsed key item.
Proof.
  intros Hname Hone.
  assert (Hv : field_values data key = [parsed key item])
    by (by rewrite field_values_filter, Hone).
  rewrite calculateStatistics_lookup, Hv.
  apply existsb_numeric_name in Hname. rewrite Hname. cbn [andb length Nat.ltb Nat.leb].
  eexists. split; [reflexivity|].
  assert (Hn : Forall not_nan [parsed key item])
    by (rewrite <- Hv; apply field_values_not_nan).
  unfold summarize. cbn [count median min max].
  change (JS.Array_sort ascending [parsed key item]) with [parsed key item].
  split; [reflexivity|]. split; [reflexivity|].
  pose proof (Math_min_elem [parsed key item] Hn ltac:(done)) as Hmin.
  pose proof (Math_max_elem [parsed key item] Hn ltac:(done)) as Hmax.
  apply list_elem_of_singleton in Hmin, Hmax. by split.
Qed.

End WithPow.

End StatisticsMore.

(** ** The routes, the statistics page and the application shell *)

Module RoutesFacts.

Import Server Spec Terms StatisticsFacts StatisticsMore Routes.

Section WithPow.

Variable Math_pow : float -> float -> float.

Lemma entries_of_app (es1 es2 : list Entry) (id : Z) :
  entries_of (es1 ++ es2) id = entries_of es1 id ++ entries_of es2 id.
Proof. apply List.filter_app. Qed.



(** X6.  The statistics of a schema read the entries of that schema only:
    an entry of another schema, wherever it is stored, does not change the
    answer; and a schema that does not exist is answered with 404, whatever
    entries point to it. *)
Theorem get_statistics_own_entries (schemas : list SchemaRow)
    (es1 es2 : list Entry) (e : Entry) (id : Z) :
  (schemaId e <> id ->
   get_statistics Math_pow schemas (es1 ++ e :: es2) id =
   get_statistics Math_pow schemas (es1 ++ es2) id) /\
  (Forall (fun s => schema_id s <> id) schemas ->
   get_statistics Math_pow schemas (es1 ++ e :: es2) id = NotFound "Schema not found").
Proof.
  split.
  - intros Hne. unfold get_statistics.
    replace (entries_of (es1 ++ e :: es2) id) with (entries_of (es1 ++ es2) id);
      [reflexivity|].
    rewrite !entries_of_app. f_equal. unfold entries_of. simpl.
    destruct (Z.eqb_spec (schemaId e) id); [contradiction|reflexivity].
  - intros Hnone. unfold get_statistics.
    destruct (List.find _ schemas) as [s|] eqn:Hfind; [|reflexivity].
    apply find_some in Hfind as [Hin Hid]. apply Z.eqb_eq in Hid.
    rewrite Forall_forall in Hnone. apply list_elem_of_In in Hin.
    by destruct (Hnone s Hin).
Qed.


End WithPow.

End RoutesFacts.

Module ViewFacts.

Import Server Spec Terms StatisticsFacts StatisticsMore.

Section WithPow.

Variable Math_pow : float -> float -> float.

(** X8.  The statistics page shows "No numerical data found" exactly when
    no record has a usable value under any numeric field of the schema. *)
Theorem no_numerical_data_iff (data : list JS.object) (fields : list Field) :
  StatisticalAnalysis.no_numerical_data (calculateStatistics Math_pow data fields) = true <->
  forall key item, numeric_name fields key -> item ∈ data -> usable key item = false.
Proof.
  unfold StatisticalAnalysis.no_numerical_data.
  rewrite Nat.eqb_eq, length_fmap, length_zero_iff_nil, map_to_list_empty_iff, map_empty.
  split.
  - intros Hnone key item Hname Hin. specialize (Hnone key).
    rewrite calculateStatistics_lookup in Hnone.
    apply existsb_numeric_name in Hname. rewrite Hname in Hnone. cbn [andb] in Hnone.
    destruct (usable key item) eqn:Hu; [|reflexivity].
    assert (Hx : parsed key item ∈ field_values data key)
      by (apply field_values_elem; eauto).
    destruct (field_values data key); [by apply not_elem_of_nil in Hx|discriminate].
  - intros Hall key. rewrite calculateStatistics_lookup.
    destruct (existsb (is_number_field key) fields) eqn:Hex; [|reflexivity].
    apply existsb_numeric_name in Hex. cbn [andb].
    destruct (field_values data key) as [|x l] eqn:Hv; [reflexivity|].
    assert (Hx : x ∈ field_values data key) by (rewrite Hv; by left).
    apply field_values_elem in Hx as (item & Hin & Hu & _).
    rewrite (Hall key item Hex Hin) in Hu. discriminate.
Qed.

End WithPow.

End ViewFacts.

Module AppFacts.

Import App.

(** X9.  In every state the main area shows exactly one panel: the schema
    designer on its tab, the panel of the active tab when a schema is
    selected, and the "No Schema Selected" notice exactly when another tab
    is active and no schema is selected. *)
Theorem exactly_one_panel {S} (activeTab : ActiveTab) (selectedSchema : option S) :
  exists panel,
    main_panels activeTab selectedSchema = [panel] /\
    (panel = NoSchemaSelected <-> activeTab <> schema /\ selectedSchema = None) /\
    (panel = SchemaDesigner <-> activeTab = schema).
Proof.
  destruct activeTab, selectedSchema as [s|]; eexists;
    (split; [reflexivity|]); split; split;
    try discriminate; try (intros [? ?]; discriminate); try done;
    try (intros [H _]; by destruct H).
Qed.

End AppFacts.

(** ** The entry form: typing, then submitting *)

Module DataEntryMore.

Import Server DataEntry DataEntryView Spec Terms.

Lemma get_onChange_other (field : Field) (formData : JS.object) (input key : string) :
  key <> name field -> JS.get (onChange field formData input) key = JS.get formData key.
Proof.
  intros Hne. unfold onChange, handleInputChange, JS.get.
  destruct (type field); by rewrite lookup_insert_ne.
Qed.

Lemma get_onChange_same (field : Field) (formData : JS.object) (input : string) :
  JS.get (onChange field formData input) (name field) =
  match type field with
  | number =>
      if fills field input then JS.Num (JS.parseFloat_string input) else JS.Str ""
  | _ => JS.Str input
  end.
Proof.
  unfold onChange, handleInputChange, JS.get, fills.
  destruct (type field) eqn:Hty; rewrite lookup_insert_eq; reflexivity.
Qed.

Lemma ToBoolean_typed (field : Field) (formData : JS.object) (input : string) :
  JS.ToBoolean (JS.get (onChange field formData input) (name field)) = fills field input.
Proof.
  rewrite get_onChange_same. unfold fills.
  destruct (type field); try reflexivity.
  cbn zeta. by destruct (negb (PrimFloat.is_zero _ || PrimFloat.is_nan _)) eqn:E.
Qed.

(** X10.  After the user has typed into the input of a field, the field
    fails the check on submit exactly when it is required and what was
    typed does not fill it: an empty text, or, in a number input, a text
    that reads as zero or as no number. *)
Theorem typed_field_fails_iff_not_filled (field : Field) (formData : JS.object)
    (input : string) :
  fails_required (onChange field formData input) field =
  (required field && negb (fills field input))%bool.
Proof. unfold fails_required. by rewrite ToBoolean_typed. Qed.

(** X11.  What an input shows after typing: a text, date or select input
    shows what was typed; a number input shows the number read, and is
    emptied when that number is zero or no number; the other inputs keep
    what they showed. *)
Theorem input_shows_what_was_typed (field other : Field) (formData : JS.object)
    (input : string) :
  (type field <> number ->
   field_value (onChange field formData input) field = JS.Str input) /\
  (type field = number ->
   field_value (onChange field formData input) field =
   if fills field input then JS.Num (JS.parseFloat_string input) else JS.Str "") /\
  (name other <> name field ->
   field_value (onChange field formData input) other = field_value formData other).
Proof.
  unfold field_value. split; [|split].
  - intros Hty. rewrite ToBoolean_typed, get_onChange_same. unfold fills.
    destruct (type field); try done;
      cbn [JS.ToBoolean]; by destruct (String.eqb_spec input "") as [->|].
  - intros Hty. rewrite ToBoolean_typed, get_onChange_same, Hty.
    by destruct (fills field input).
  - intros Hne. by rewrite get_onChange_other.
Qed.




End DataEntryMore.

(** ** Strings: [split], [trim] and [join] *)

Module JSStringFacts.

Import JSString Terms.

Local Open Scope string_scope.

Lemma contains_app (c : ascii) (a b : string) :
  contains c (a ++ b) = (contains c a || contains c b)%bool.
Proof.
  induction a as [|d a IH]; simpl; [reflexivity|].
  by rewrite IH, orb_assoc.
Qed.

Lemma split_not_nil (sep : ascii) (s : string) : split sep s <> [].
Proof.
  destruct s as [|c s]; simpl; [done|].
  destruct (Ascii.eqb c sep); [done|]. by destruct (split sep s).
Qed.

(** No piece of a split holds the separator. *)
Lemma split_pieces (sep : ascii) (s : string) :
  Forall (fun piece => contains sep piece = false) (split sep s).
Proof.
  induction s as [|c s IH]; simpl; [by repeat constructor|].
  destruct (Ascii.eqb c sep) eqn:E; [by constructor|].
  destruct (split sep s) as [|piece pieces]; [repeat constructor; simpl; by rewrite E|].
  inversion_clear IH. constructor; [simpl; by rewrite E|assumption].
Qed.

(** A piece without the separator, then the separator, then the rest. *)
Lemma split_app (sep : ascii) (a b : string) :
  contains sep a = false -> split sep (a ++ String sep b) = a :: split sep b.
Proof.
  induction a as [|c a IH]; simpl; intros Ha.
  - by rewrite Ascii.eqb_refl.
  - apply orb_false_iff in Ha as [Hc Ha]. rewrite Hc, (IH Ha). reflexivity.
Qed.

Lemma split_whole (sep : ascii) (a : string) :
  contains sep a = false -> split sep a = [a].
Proof.
  induction a as [|c a IH]; simpl; intros Ha; [reflexivity|].
  apply orb_false_iff in Ha as [Hc Ha]. rewrite Hc, (IH Ha). reflexivity.
Qed.

(** Splitting undoes joining, when no piece holds the separator. *)
Lemma split_join (sep : ascii) (pieces : list string) :
  pieces <> [] -> Forall (fun piece => contains sep piece = false) pieces ->
  split sep (join (String sep "") pieces) = pieces.
Proof.
  intros Hne Hall. induction Hall as [|piece rest Hp Hall IH]; [done|].
  destruct rest as [|next rest]; [by apply split_whole|].
  change (join (String sep "") (piece :: next :: rest))
    with (piece ++ String sep (join (String sep "") (next :: rest))).
  rewrite split_app by assumption. f_equal. by apply IH.
Qed.

Lemma contains_join (c sep : ascii) (pieces : list string) :
  Ascii.eqb sep c = false ->
  Forall (fun piece => contains c piece = false) pieces ->
  contains c (join (String sep "") pieces) = false.
Proof.
  intros Hsep Hall. induction Hall as [|piece rest Hp Hall IH]; [reflexivity|].
  destruct rest as [|next rest]; [assumption|].
  change (join (String sep "") (piece :: next :: rest))
    with (piece ++ String sep (join (String sep "") (next :: rest))).
  rewrite contains_app, Hp. simpl contains at 1. rewrite Hsep. exact IH.
Qed.

(** *** Trimming *)

Lemma contains_TrimStart (c : ascii) (s : string) :
  contains c (JS.TrimStart s) = true -> contains c s = true.
Proof.
  induction s as [|d s IH]; simpl; [done|].
  destruct (JS.is_white_space d); [|done].
  intros H. rewrite (IH H). apply orb_true_r.
Qed.

Lemma contains_TrimEnd (c : ascii) (s : string) :
  contains c (TrimEnd s) = true -> contains c s = true.
Proof.
  induction s as [|d s IH]; simpl; [done|].
  destruct (TrimEnd s) as [|e t] eqn:Ht.
  - destruct (JS.is_white_space d); [done|]. simpl. rewrite orb_false_r.
    intros ->. reflexivity.
  - simpl. simpl in IH. destruct (Ascii.eqb d c); [done|]. simpl. exact IH.
Qed.

Lemma contains_trim (c : ascii) (s : string) :
  contains c s = false -> contains c (trim s) = false.
Proof.
  intros Hs. destruct (contains c (trim s)) eqn:E; [|reflexivity].
  apply contains_TrimEnd, contains_TrimStart in E. congruence.
Qed.

Lemma TrimEnd_idem (s : string) : TrimEnd (TrimEnd s) = TrimEnd s.
Proof.
  induction s as [|d s IH]; simpl; [reflexivity|].
  destruct (TrimEnd s) as [|e t] eqn:Ht.
  - destruct (JS.is_white_space d) eqn:Hd; simpl; [reflexivity|]. by rewrite Hd.
  - simpl TrimEnd at 1. fold TrimEnd. simpl in IH.
    change (TrimEnd (String d (String e t)))
      with (match TrimEnd (String e t) with
            | EmptyString => if JS.is_white_space d then EmptyString else String d EmptyString
            | trimmed => String d trimmed
            end).
    rewrite IH. reflexivity.
Qed.

(** Trimming the end keeps a start that is not white space. *)
Lemma TrimStart_TrimEnd (s : string) :
  JS.TrimStart s = s -> JS.TrimStart (TrimEnd s) = TrimEnd s.
Proof.
  destruct s as [|d s]; [reflexivity|]. simpl.
  destruct (JS.is_white_space d) eqn:Hd.
  - intros H. exfalso.
    assert (Hlen : String.length (JS.TrimStart s) <= String.length s).
    { clear. induction s as [|c s IH]; simpl; [lia|].
      destruct (JS.is_white_space c); simpl; lia. }
    rewrite H in Hlen. simpl in Hlen. lia.
  - intros _. destruct (TrimEnd s); simpl; by rewrite Hd.
Qed.

Lemma TrimStart_idem (s : string) : JS.TrimStart (JS.TrimStart s) = JS.TrimStart s.
Proof.
  induction s as [|d s IH]; simpl; [reflexivity|].
  destruct (JS.is_white_space d) eqn:Hd; [exact IH|]. simpl. by rewrite Hd.
Qed.

Lemma trim_idem (s : string) : trim (trim s) = trim s.
Proof.
  unfold trim. rewrite TrimStart_TrimEnd by apply TrimStart_idem.
  apply TrimEnd_idem.
Qed.

(** A space before a trimmed text is trimmed away. *)
Lemma trim_space (s : string) : trim (String " " s) = trim s.
Proof. reflexivity. Qed.

End JSStringFacts.

(** ** The schema designer *)

Module SchemaDesignerFacts.

Import Server JSString Terms JSStringFacts SchemaDesigner.

Local Open Scope string_scope.

(** Every option read from the comma-separated text is clean. *)
Lemma parse_options_clean (selectOptions : string) :
  Forall clean_option (parse_options selectOptions).
Proof.
  unfold parse_options. apply Forall_forall. intros opt Hin.
  apply list_elem_of_In, filter_In in Hin as [Hin Hne].
  apply in_map_iff in Hin as (piece & <- & Hin).
  pose proof (split_pieces "," selectOptions) as Hpieces.
  rewrite Forall_forall in Hpieces. apply list_elem_of_In in Hin.
  repeat split.
  - intros E. rewrite E in Hne. discriminate.
  - apply contains_trim. by apply Hpieces.
  - apply trim_idem.
Qed.

Lemma split_space (s : string) :
  exists piece pieces,
    split "," s = piece :: pieces /\
    split "," (String " " s) = String " " piece :: pieces.
Proof.
  simpl. destruct (split "," s) as [|piece pieces] eqn:E.
  - by apply split_not_nil in E.
  - eauto.
Qed.

Lemma trim_split_join (opts : list string) :
  Forall clean_option opts -> opts <> [] ->
  List.map trim (split "," (join ", " opts)) = opts.
Proof.
  intros Hall Hne. induction Hall as [|opt rest Hopt Hall IH]; [done|].
  destruct Hopt as (_ & Hcomma & Htrim).
  destruct rest as [|next rest].
  - simpl join. rewrite split_whole by assumption. simpl. by rewrite Htrim.
  - change (join ", " (opt :: next :: rest))
      with (opt ++ String "," (String " " (join ", " (next :: rest)))).
    rewrite split_app by assumption.
    destruct (split_space (join ", " (next :: rest))) as (piece & pieces & H1 & H2).
    rewrite H2. specialize (IH ltac:(done)). rewrite H1 in IH.
    cbn [List.map] in IH |- *. rewrite trim_space, Htrim. by f_equal.
Qed.

(** X13.  The options of a field are shown joined by a comma and a space;
    typing what is shown back into the options input gives the same
    options again. *)
Theorem options_round_trip (opts : list string) :
  Forall clean_option opts -> parse_options (join ", " opts) = opts.
Proof.
  intros Hall. destruct opts as [|opt rest]; [reflexivity|].
  unfold parse_options. rewrite trim_split_join by done.
  induction Hall as [|o l Ho Hall IH]; [reflexivity|].
  cbn [List.filter]. destruct Ho as (Hne & _).
  destruct (String.eqb_spec o ""); [done|]. simpl. by rewrite IH.
Qed.

Lemma filter_index_all {A} (index k : nat) (l : list A) :
  index < k -> filter_index (fun i => negb (i =? index)%nat) k l = l.
Proof.
  revert k. induction l as [|x l IH]; intros k Hlt; simpl; [reflexivity|].
  destruct (Nat.eqb_spec k index); [lia|]. simpl. f_equal. apply IH. lia.
Qed.

Lemma filter_index_from {A} (j k : nat) (l : list A) :
  filter_index (fun i => negb (i =? k + j)%nat) k l = (take j l ++ drop (S j) l)%list.
Proof.
  revert j k. induction l as [|x l IH]; intros j k; simpl.
  - by destruct j.
  - destruct j as [|j].
    + rewrite Nat.add_0_r, Nat.eqb_refl. simpl. rewrite drop_0.
      apply filter_index_all. lia.
    + destruct (Nat.eqb_spec k (k + S j)); [lia|]. simpl. f_equal.
      replace (k + S j) with (S k + j) by lia. apply IH.
Qed.

(** X14.  Removing a field takes out the field at that position and keeps
    the others in their order; a position past the end removes nothing. *)
Theorem removeField_at (st : State) (index : nat) :
  fields (removeField st index)
    = (take index (fields st) ++ drop (S index) (fields st))%list /\
  (length (fields st) <= index -> removeField st index = st).
Proof.
  assert (H : fields (removeField st index)
              = (take index (fields st) ++ drop (S index) (fields st))%list)
    by apply (filter_index_from index 0).
  split; [exact H|]. intros Hge.
  destruct st as [n fs nf so]. unfold removeField in *. simpl in *.
  rewrite H. rewrite take_ge, drop_ge, app_nil_r by lia. reflexivity.
Qed.

Lemma addField_invariant (st : State) :
  designer_invariant st -> designer_invariant (addField st).
Proof.
  intros [Hnew Hfields]. unfold addField.
  destruct (String.eqb_spec (name (newField st)) "") as [|Hname]; [by split|].
  split; [reflexivity|]. cbn [fields]. apply Forall_app. split; [assumption|].
  constructor; [|constructor]. unfold well_formed_field.
  destruct (type (newField st)) eqn:Hty; cbn [name type options];
    rewrite ?Hty; (split; [assumption|]); try assumption.
  eexists. split; [reflexivity|]. apply parse_options_clean.
Qed.

Lemma removeField_invariant (st : State) (index : nat) :
  designer_invariant st -> designer_invariant (removeField st index).
Proof.
  intros [Hnew Hfields]. split; [assumption|].
  cbn [removeField fields]. rewrite (filter_index_from index 0).
  apply Forall_app. split.
  - by apply Forall_take.
  - by apply Forall_drop.
Qed.

Lemma createSchema_invariant (st : State) (post_ok : bool) :
  designer_invariant st -> designer_invariant (createSchema st post_ok).1.
Proof.
  intros Hinv. unfold createSchema.
  destruct (_ || _)%bool; [assumption|].
  destruct post_ok; [|assumption].
  destruct Hinv as [Hnew _]. split; [assumption|constructor].
Qed.

Lemma step_invariant (st : State) (a : Action) :
  designer_invariant st -> designer_invariant (step st a).1.
Proof.
  intros Hinv. destruct a; cbn [step fst];
    [ | | | | | by apply addField_invariant | by apply removeField_invariant
    | by apply createSchema_invariant ];
    destruct Hinv as [Hnew Hfields]; split; assumption.
Qed.

Lemma step_request (st : State) (a : Action) (r : Request) :
  designer_invariant st -> (step st a).2 = Some r -> sound_request r.
Proof.
  intros [_ Hfields] Hsent. destruct a; try discriminate.
  cbn [step] in Hsent. unfold createSchema in Hsent.
  destruct (String.eqb_spec (schemaName st) "") as [|Hname]; [discriminate|].
  destruct (fields st) as [|f fs] eqn:Hfs; [discriminate|].
  cbn [orb length Nat.eqb] in Hsent.
  assert (r = {| posted_name := schemaName st; posted_fields := f :: fs |}) as ->
    by (destruct post_ok; cbn [snd] in Hsent; congruence).
  repeat split; cbn [posted_name posted_fields]; [assumption|discriminate|assumption].
Qed.

Lemma run_requests (actions : list Action) (st : State) :
  designer_invariant st -> Forall sound_request (run st actions).2.
Proof.
  revert st. induction actions as [|a rest IH]; intros st Hinv; [constructor|].
  cbn [run]. pose proof (step_invariant st a Hinv) as Hnext.
  pose proof (step_request st a) as Hsent.
  destruct (step st a) as [st' sent]. cbn [fst snd] in *.
  specialize (IH st' Hnext). destruct (run st' rest) as [final later].
  cbn [snd] in *. destruct sent as [r|]; [|assumption].
  constructor; [by apply Hsent|assumption].
Qed.

(** X15.  Whatever the user does in the designer, every schema it posts has
    a name and at least one field, every field has a name, a select field
    carries its clean options and no other field carries options. *)
Theorem designer_posts_sound_schemas (actions : list Action) :
  Forall sound_request (run initial actions).2.
Proof.
  apply run_requests. split; [reflexivity|constructor].
Qed.

End SchemaDesignerFacts.

(** ** The CSV export *)

Module ExportFacts.

Import Server JSString Terms JSStringFacts ExportImport.




Section WithToString.

Variable Number_toString : float -> string.

Lemma length_cells (fields : list Field) (d : JS.object) :
  length (cells Number_toString fields d) = length fields.
Proof. apply length_map. Qed.


(** X17.  With at least one field and one entry, and names and values
    that hold neither a comma nor a line feed, the file reads back: split
    at the line feeds and then at the commas it gives the names of the
    fields and then the values of each entry. *)
Theorem csv_reads_back (schema_name : string) (fields : list Field)
    (entries : list Entry) :
  fields <> [] -> entries <> [] ->
  Forall (fun f => plain (name f)) fields ->
  Forall (fun entry => Forall plain (cells Number_toString fields (data entry))) entries ->
  exists content,
    exportToCSV Number_toString schema_name fields entries
      = Download (schema_name ++ "_export.csv") content /\
    List.map (split ",") (split LF content)
      = List.map name fields
        :: List.map (fun entry => cells Number_toString fields (data entry)) entries.
Proof.
  intros Hfields Hentries Hnames Hcells.
  destruct entries as [|entry rest]; [done|]. eexists. split; [reflexivity|].
  set (rows := List.map _ (entry :: rest)).
  assert (Hnonempty : forall d, cells Number_toString fields d <> []).
  { intros d E. apply (f_equal length) in E. rewrite length_cells in E.
    by destruct fields. }
  rewrite split_join.
  - rewrite (List.map_cons (split ",")). f_equal.
    + apply split_join.
      * by destruct fields.
      * apply Forall_forall. intros s Hs.
        apply list_elem_of_In, in_map_iff in Hs as (f & <- & Hf).
        rewrite Forall_forall in Hnames. apply Hnames. by apply list_elem_of_In.
    + subst rows. rewrite List.map_map. apply List.map_ext_in. intros e He.
      apply split_join; [apply Hnonempty|].
      rewrite Forall_forall in Hcells. apply list_elem_of_In in He.
      eapply Forall_impl; [apply (Hcells e He)|]. by intros s [H _].
  - discriminate.
  - constructor.
    + apply contains_join; [reflexivity|].
      apply Forall_forall. intros s Hs.
      apply list_elem_of_In, in_map_iff in Hs as (f & <- & Hf).
      rewrite Forall_forall in Hnames. apply Hnames. by apply list_elem_of_In.
    + subst rows. apply Forall_forall. intros s Hs.
      apply list_elem_of_In, in_map_iff in Hs as (e & <- & He).
      apply contains_join; [reflexivity|].
      rewrite Forall_forall in Hcells. apply list_elem_of_In in He.
      eapply Forall_impl; [apply (Hcells e He)|]. by intros s [_ H].
Qed.

End WithToString.

End ExportFacts.

(** ** The properties at concrete inputs *)

Module MoreExamples.

Import Server Spec Terms DataEntry DataEntryView.
Import StatisticsMore RoutesFacts DataEntryMore SchemaDesignerFacts ExportFacts.

Local Open Scope string_scope.

Lemma fields_matter_by_numeric_names_witness :
  calculateStatistics square_pow ages_10_20_30 [first_name; age; age] =
  calculateStatistics square_pow ages_10_20_30 [age].
Proof.
  apply (fields_matter_by_numeric_names square_pow). intros key.
  split; intros (f & Hin & Hty & Hname); exists age;
    (split; [repeat constructor|split; [reflexivity|]]);
    rewrite !elem_of_cons, elem_of_nil in Hin;
    decompose [or] Hin; subst; try discriminate; try contradiction; reflexivity.
Defined.

Lemma other_keys_ignored_witness :
  calculateStatistics square_pow [aged (JS.Num 5)] [age] !! "age" =
  calculateStatistics square_pow
    [<["first" := JS.Str "Ann"]> (aged (JS.Num 5))] [age] !! "age".
Proof.
  apply (other_keys_ignored square_pow). repeat constructor.
Defined.

Lemma min_max_attained_witness :
  let s := summarize square_pow (field_values ages_10_20_30 "age") in
  (exists item, item ∈ ages_10_20_30 /\ usable "age" item = true /\
                min s = parsed "age" item) /\
  (exists item, item ∈ ages_10_20_30 /\ usable "age" item = true /\
                max s = parsed "age" item) /\
  ((count s mod 2 = 1)%nat ->
   exists item, item ∈ ages_10_20_30 /\ usable "age" item = true /\
                median s = parsed "age" item).
Proof.
  apply (min_max_attained square_pow ages_10_20_30 [age] "age").
  vm_compute. reflexivity.
Defined.

Lemma single_usable_record_witness :
  exists s,
    calculateStatistics square_pow [aged (JS.Str "oops"); aged (JS.Num 7)] [age] !! "age"
      = Some s /\
    count s = 1%nat /\ median s = parsed "age" (aged (JS.Num 7)) /\
    min s = parsed "age" (aged (JS.Num 7)) /\ max s = parsed "age" (aged (JS.Num 7)).
Proof.
  apply (single_usable_record square_pow).
  - exists age. repeat constructor.
  - vm_compute. reflexivity.
Defined.

Lemma get_statistics_own_entries_witness :
  Routes.get_statistics square_pow [people]
    ([entry_of 1 (aged (JS.Num 5))] ++ entry_of 2 (aged (JS.Num 9)) :: []) 1 =
  Routes.get_statistics square_pow [people] ([entry_of 1 (aged (JS.Num 5))] ++ []) 1 /\
  Routes.get_statistics square_pow [people]
    ([entry_of 1 (aged (JS.Num 5))] ++ entry_of 2 (aged (JS.Num 9)) :: []) 2 =
  Routes.NotFound "Schema not found".
Proof.
  split.
  - apply (proj1 (get_statistics_own_entries square_pow [people] _ _ _ 1%Z)).
    discriminate.
  - apply (proj2 (get_statistics_own_entries square_pow [people] _ _ _ 2%Z)).
    repeat constructor. discriminate.
Defined.


Lemma input_shows_what_was_typed_witness :
  field_value (onChange first_name ∅ "Ann") first_name = JS.Str "Ann" /\
  field_value (onChange score ∅ "12abc") score =
    (if fills score "12abc" then JS.Num (JS.parseFloat_string "12abc") else JS.Str "") /\
  field_value (onChange score (aged (JS.Num 5)) "7") age = field_value (aged (JS.Num 5)) age.
Proof.
  split; [|split].
  - apply (proj1 (input_shows_what_was_typed first_name age ∅ "Ann")). discriminate.
  - apply (proj1 (proj2 (input_shows_what_was_typed score age ∅ "12abc"))). reflexivity.
  - apply (proj2 (proj2 (input_shows_what_was_typed score age (aged (JS.Num 5)) "7"))).
    discriminate.
Defined.


Lemma options_round_trip_witness :
  SchemaDesigner.parse_options (JSString.join ", " ["low"; "high"]) = ["low"; "high"].
Proof.
  apply options_round_trip.
  repeat constructor; try discriminate.
Defined.

Lemma removeField_at_witness :
  SchemaDesigner.fields (SchemaDesigner.removeField three_fields 1) =
    (take 1 (SchemaDesigner.fields three_fields) ++
     drop 2 (SchemaDesigner.fields three_fields))%list /\
  SchemaDesigner.removeField three_fields 3 = three_fields.
Proof.
  split.
  - apply (proj1 (removeField_at three_fields 1)).
  - apply (proj2 (removeField_at three_fields 3)). simpl. lia.
Defined.


Lemma csv_reads_back_witness :
  exists content,
    ExportImport.exportToCSV no_numbers "people" [first_name; last_name]
      [entry_of 1 ann_lee]
      = ExportImport.Download ("people" ++ "_export.csv") content /\
    List.map (JSString.split ",") (JSString.split ExportImport.LF content)
      = List.map name [first_name; last_name]
        :: List.map (fun entry => ExportImport.cells no_numbers [first_name; last_name]
                                    (data entry))
             [entry_of 1 ann_lee].
Proof.
  apply (csv_reads_back no_numbers "people").
  - discriminate.
  - discriminate.
  - repeat constructor.
  - repeat constructor.
Defined.

End MoreExamples.
